(** * The PE backend of cle ([cle/backends/pe.py]) and the loader's placement
      of objects ([tests/test_overlap.py]), embedded shallowly.

    Python objects that are shared and mutated (backend objects, whose
    [mapped_base] the loader assigns after construction and whose memory
    image relocations patch in place) live in a store indexed by references;
    symbols and relocations point to their owner by reference.  Integers are
    Python's unbounded integers ([Z]); bytes are integers below 256; a byte
    string is a list of bytes. *)

From Stdlib Require Import ZArith Lia List Bool Ascii.
From stdpp Require Import base option list gmap strings pretty.
Local Open Scope Z_scope.

(** ** Outcomes of Python code *)

Inductive exn : Type :=
| struct_error      (* struct.pack / struct.unpack on a bad argument *)
| IndexError
| TypeError
| AttributeError
| ValueError
| ReferenceError    (* a reference outside the store: no Python counterpart *)
| CLEError.

(** A computation returns, raises, or is still looping when the fuel of a
    [while] loop is spent. *)
Inductive pyres (A : Type) : Type :=
| Ok (a : A)
| Raise (e : exn)
| Diverge.
Arguments Ok {A} a.
Arguments Raise {A} e.
Arguments Diverge {A}.

Definition pybind {A B} (m : pyres A) (k : A → pyres B) : pyres B :=
  match m with
  | Ok a => k a
  | Raise e => Raise e
  | Diverge => Diverge
  end.

Notation "x ←! m ; k" := (pybind m (λ x, k))
  (at level 20, m at level 100, k at level 200, right associativity, only parsing).

(** Records sent to the logger [l = logging.getLogger('cle.pe')]. *)
Inductive logrec : Type :=
| warning_corrupt_relocation_table
    (* l.warning('PE contains corrupt relocation table') *)
| warning_unimplemented_relocation_type (reloc_type : option Z).
    (* l.warning('PE contains unimplemented relocation type %d', ...) *)

(** ** [struct]: little-endian packing of unsigned words *)

Module struct.

(** [n] bytes of [v], least significant first. *)
Fixpoint le_bytes (n : nat) (v : Z) : list Z :=
  match n with
  | O => []
  | S n' => v mod 256 :: le_bytes n' (v / 256)
  end.

Fixpoint le_value (bs : list Z) : Z :=
  match bs with
  | [] => 0
  | b :: bs' => b + 256 * le_value bs'
  end.

(** [struct.pack('<I', v)] and [struct.pack('<Q', v)]: an argument out of
    the format's range raises [struct.error]. *)
Definition pack_le (width : nat) (v : Z) : pyres (list Z) :=
  if bool_decide (0 ≤ v < 2 ^ (8 * Z.of_nat width))
  then Ok (le_bytes width v)
  else Raise struct_error.

(** [struct.unpack('<I', s)[0]]: a string of the wrong length raises. *)
Definition unpack_le (width : nat) (bs : list Z) : pyres Z :=
  if bool_decide (length bs = width)
  then Ok (le_value bs)
  else Raise struct_error.

Definition pack_I := pack_le 4.
Definition unpack_I := unpack_le 4.
Definition pack_Q := pack_le 8.
Definition unpack_Q := unpack_le 8.

End struct.

(** ** The byte-addressed memory image of an object

    Modelled from the spec: the memory class ([cle.memory.Clemory]) is not
    part of the sources at hand.  The spec gives each object a backing memory
    image, a raw byte view registered as a backer at offset 0, that
    relocations read and patch in place. *)

Module Clemory.

Abbreviation t := (gmap Z Z).

(** [add_backer(start, data)]: the bytes of [data] from address [start]. *)
Fixpoint add_backer (start : Z) (data : list Z) (m : t) : t :=
  match data with
  | [] => m
  | b :: data' => <[start := b]> (add_backer (start + 1) data' m)
  end.

(** [read_bytes(addr, n)]: the bytes at [addr .. addr+n-1], stopping at the
    first address that holds none. *)
Fixpoint read_bytes (m : t) (addr : Z) (n : nat) : list Z :=
  match n with
  | O => []
  | S n' =>
      match m !! addr with
      | Some b => b :: read_bytes m (addr + 1) n'
      | None => []
      end
  end.

(** [write_bytes(addr, data)]: store [data] from [addr] on. *)
Fixpoint write_bytes (m : t) (addr : Z) (data : list Z) : t :=
  match data with
  | [] => m
  | b :: data' => write_bytes (<[addr := b]> m) (addr + 1) data'
  end.

End Clemory.

(** ** What the format parser ([pefile]) hands over *)

Module pefile.

(** [pefile.RELOCATION_TYPE], the type codes of base relocations. *)
Definition IMAGE_REL_BASED_ABSOLUTE : Z := 0.
Definition IMAGE_REL_BASED_HIGH : Z := 1.
Definition IMAGE_REL_BASED_LOW : Z := 2.
Definition IMAGE_REL_BASED_HIGHLOW : Z := 3.
Definition IMAGE_REL_BASED_HIGHADJ : Z := 4.
Definition IMAGE_REL_BASED_DIR64 : Z := 10.

(** One entry of a base-relocation block. *)
Record reloc_entry : Type := mk_reloc_entry {
  rva : Z;
  type : Z
}.

(** One block of [DIRECTORY_ENTRY_BASERELOC]. *)
Record base_reloc : Type := mk_base_reloc {
  entries : list reloc_entry
}.

Record import_data : Type := mk_import_data {
  imp_name : option string;
  imp_ordinal : Z;
  imp_address : Z
}.

Record import_desc : Type := mk_import_desc {
  dll : string;
  imports : list import_data
}.

Record export_data : Type := mk_export_data {
  exp_name : string;
  exp_address : Z
}.

Record tls_struct : Type := mk_tls_struct {
  StartAddressOfRawData : Z;
  EndAddressOfRawData : Z;
  AddressOfIndex : Z;
  AddressOfCallBacks : Z;
  SizeOfZeroFill : Z
}.

Record section_struct : Type := mk_section_struct {
  Name : string;
  Misc_PhysicalAddress : Z;
  VirtualAddress : Z;
  Misc_VirtualSize : Z;
  Characteristics : Z
}.

(** The parsed file.  A directory that the file lacks is [None]
    ([hasattr] is false). *)
Record PE : Type := mk_PE {
  Machine : Z;
  ImageBase : Z;
  AddressOfEntryPoint : Z;
  DllCharacteristics : Z;
  DIRECTORY_ENTRY_IMPORT : option (list import_desc);
  DIRECTORY_ENTRY_EXPORT : option (list export_data);
  DIRECTORY_ENTRY_BASERELOC : option (list base_reloc);
  DIRECTORY_ENTRY_TLS : option tls_struct;
  sections : list section_struct;
  memory_mapped_image : list Z
}.

Definition get_memory_mapped_image (pe : PE) : list Z :=
  memory_mapped_image pe.

(** [get_dword_at_rva(rva)]: the 4-byte little-endian word of the mapped
    image at [rva], [None] where the image has no four bytes there. *)
Definition get_dword_at_rva (pe : PE) (rva : Z) : option Z :=
  if bool_decide (0 ≤ rva) then
    let bs := take 4 (drop (Z.to_nat rva) (memory_mapped_image pe)) in
    if bool_decide (length bs = 4%nat) then Some (struct.le_value bs) else None
  else None.

End pefile.

(** ** The object model *)

(** A reference to a backend object of the store. *)
Definition objref : Type := nat.

(** [archinfo]'s description of a CPU, as far as this backend reads it. *)
Record Arch : Type := mk_Arch {
  bytes : Z      (* width of a pointer, in bytes *)
}.

(** Modelled from the spec: the architecture collaborator maps a machine-type
    code to a pointer width and fails on a code it does not know
    ([archinfo.arch_from_id(pefile.MACHINE_TYPE[...])], not in the sources). *)
Definition arch_from_id (machine : Z) : pyres Arch :=
  if bool_decide (machine = 0x14c) then Ok (mk_Arch 4)          (* I386 *)
  else if bool_decide (machine = 0x8664) then Ok (mk_Arch 8)    (* AMD64 *)
  else if bool_decide (machine = 0x1c0) then Ok (mk_Arch 4)     (* ARM *)
  else if bool_decide (machine = 0xaa64) then Ok (mk_Arch 8)    (* ARM64 *)
  else Raise CLEError.

Inductive symbol_type : Type := TYPE_FUNCTION | TYPE_OBJECT | TYPE_OTHER.

(** [class WinSymbol(Symbol)] *)
Record WinSymbol : Type := mk_WinSymbol {
  sym_owner_obj : objref;
  sym_name : string;
  sym_addr : Z;
  sym_size : Z;
  sym_type : symbol_type;
  is_import : bool;
  is_export : bool
}.

(** [class WinReloc(Relocation)]; [resolved] and [resolvedby] are the state
    the base class keeps. *)
Record WinReloc : Type := mk_WinReloc {
  owner_obj : objref;
  symbol : option WinSymbol;
  addr : Z;
  resolvewith : option string;
  reloc_type : option Z;
  next_rva : option Z;
  resolved : bool;
  resolvedby : option WinSymbol
}.

(** [class PESection(Section)] *)
Record PESection : Type := mk_PESection {
  name : string;
  offset : Z;
  vaddr : Z;
  memsize : Z;
  characteristics : Z
}.

(** [class PE(Backend)] *)
Record PE : Type := mk_PE {
  binary : option string;
  is_main_bin : bool;
  arch : Arch;
  _pe : pefile.PE;
  os : string;
  linked_base : Z;
  mapped_base : Z;
  _entry : option Z;
  deps : list string;
  provides : option string;
  tls_used : bool;
  tls_data_start : option Z;
  tls_data_size : option Z;
  tls_index_address : option Z;
  tls_callbacks : option (list (option Z));
  tls_size_of_zero_fill : option Z;
  _exports : gmap string WinSymbol;
  imports : gmap string WinReloc;
  relocs : list WinReloc;
  sections : list PESection;
  sections_map : gmap string PESection;
  linking : string;
  memory : gmap Z Z
}.

(** [self.segments = self.sections], [self._symbol_cache = self._exports] and
    [self.jmprel = self.imports] name the same objects. *)
Definition segments (self : PE) : list PESection := sections self.
Definition _symbol_cache (self : PE) : gmap string WinSymbol := _exports self.
Definition jmprel (self : PE) : gmap string WinReloc := imports self.

(** Attribute assignment [self.f = v], one function per attribute that is
    assigned after the object exists. *)
Definition set_mapped_base (v : Z) (o : PE) : PE :=
  mk_PE (binary o) (is_main_bin o) (arch o) (_pe o) (os o) (linked_base o) v
    (_entry o) (deps o) (provides o) (tls_used o) (tls_data_start o)
    (tls_data_size o) (tls_index_address o) (tls_callbacks o)
    (tls_size_of_zero_fill o) (_exports o) (imports o) (relocs o) (sections
    o) (sections_map o) (linking o) (memory o).

Definition set_entry (v : option Z) (o : PE) : PE :=
  mk_PE (binary o) (is_main_bin o) (arch o) (_pe o) (os o) (linked_base o)
    (mapped_base o) v (deps o) (provides o) (tls_used o) (tls_data_start o)
    (tls_data_size o) (tls_index_address o) (tls_callbacks o)
    (tls_size_of_zero_fill o) (_exports o) (imports o) (relocs o) (sections
    o) (sections_map o) (linking o) (memory o).

Definition set_deps (v : list string) (o : PE) : PE :=
  mk_PE (binary o) (is_main_bin o) (arch o) (_pe o) (os o) (linked_base o)
    (mapped_base o) (_entry o) v (provides o) (tls_used o) (tls_data_start
    o) (tls_data_size o) (tls_index_address o) (tls_callbacks o)
    (tls_size_of_zero_fill o) (_exports o) (imports o) (relocs o) (sections
    o) (sections_map o) (linking o) (memory o).

Definition set_provides (v : option string) (o : PE) : PE :=
  mk_PE (binary o) (is_main_bin o) (arch o) (_pe o) (os o) (linked_base o)
    (mapped_base o) (_entry o) (deps o) v (tls_used o) (tls_data_start o)
    (tls_data_size o) (tls_index_address o) (tls_callbacks o)
    (tls_size_of_zero_fill o) (_exports o) (imports o) (relocs o) (sections
    o) (sections_map o) (linking o) (memory o).

Definition set_exports (v : gmap string WinSymbol) (o : PE) : PE :=
  mk_PE (binary o) (is_main_bin o) (arch o) (_pe o) (os o) (linked_base o)
    (mapped_base o) (_entry o) (deps o) (provides o) (tls_used o)
    (tls_data_start o) (tls_data_size o) (tls_index_address o)
    (tls_callbacks o) (tls_size_of_zero_fill o) v (imports o) (relocs o)
    (sections o) (sections_map o) (linking o) (memory o).

Definition set_imports (v : gmap string WinReloc) (o : PE) : PE :=
  mk_PE (binary o) (is_main_bin o) (arch o) (_pe o) (os o) (linked_base o)
    (mapped_base o) (_entry o) (deps o) (provides o) (tls_used o)
    (tls_data_start o) (tls_data_size o) (tls_index_address o)
    (tls_callbacks o) (tls_size_of_zero_fill o) (_exports o) v (relocs o)
    (sections o) (sections_map o) (linking o) (memory o).

Definition set_relocs (v : list WinReloc) (o : PE) : PE :=
  mk_PE (binary o) (is_main_bin o) (arch o) (_pe o) (os o) (linked_base o)
    (mapped_base o) (_entry o) (deps o) (provides o) (tls_used o)
    (tls_data_start o) (tls_data_size o) (tls_index_address o)
    (tls_callbacks o) (tls_size_of_zero_fill o) (_exports o) (imports o) v
    (sections o) (sections_map o) (linking o) (memory o).

Definition set_sections (v : list PESection) (o : PE) : PE :=
  mk_PE (binary o) (is_main_bin o) (arch o) (_pe o) (os o) (linked_base o)
    (mapped_base o) (_entry o) (deps o) (provides o) (tls_used o)
    (tls_data_start o) (tls_data_size o) (tls_index_address o)
    (tls_callbacks o) (tls_size_of_zero_fill o) (_exports o) (imports o)
    (relocs o) v (sections_map o) (linking o) (memory o).

Definition set_sections_map (v : gmap string PESection) (o : PE) : PE :=
  mk_PE (binary o) (is_main_bin o) (arch o) (_pe o) (os o) (linked_base o)
    (mapped_base o) (_entry o) (deps o) (provides o) (tls_used o)
    (tls_data_start o) (tls_data_size o) (tls_index_address o)
    (tls_callbacks o) (tls_size_of_zero_fill o) (_exports o) (imports o)
    (relocs o) (sections o) v (linking o) (memory o).

Definition set_linking (v : string) (o : PE) : PE :=
  mk_PE (binary o) (is_main_bin o) (arch o) (_pe o) (os o) (linked_base o)
    (mapped_base o) (_entry o) (deps o) (provides o) (tls_used o)
    (tls_data_start o) (tls_data_size o) (tls_index_address o)
    (tls_callbacks o) (tls_size_of_zero_fill o) (_exports o) (imports o)
    (relocs o) (sections o) (sections_map o) v (memory o).

Definition set_memory (v : gmap Z Z) (o : PE) : PE :=
  mk_PE (binary o) (is_main_bin o) (arch o) (_pe o) (os o) (linked_base o)
    (mapped_base o) (_entry o) (deps o) (provides o) (tls_used o)
    (tls_data_start o) (tls_data_size o) (tls_index_address o)
    (tls_callbacks o) (tls_size_of_zero_fill o) (_exports o) (imports o)
    (relocs o) (sections o) (sections_map o) (linking o) v.

(** The six TLS attributes, assigned together by [_register_tls]. *)
Definition set_tls (start size index : Z) (callbacks : list (option Z))
    (zero_fill : Z) (o : PE) : PE :=
  mk_PE (binary o) (is_main_bin o) (arch o) (_pe o) (os o) (linked_base o)
    (mapped_base o) (_entry o) (deps o) (provides o) true (Some start) (Some
    size) (Some index) (Some callbacks) (Some zero_fill) (_exports o)
    (imports o) (relocs o) (sections o) (sections_map o) (linking o) (memory
    o).

(** The store of backend objects. *)
Abbreviation heap := (gmap objref PE).

(** [obj.attr] through a reference. *)
Definition deref (σ : heap) (r : objref) : pyres PE :=
  match σ !! r with
  | Some o => Ok o
  | None => Raise ReferenceError
  end.

(** ** Address translation

    Modelled from the spec: [cle.address_translator.AT] is not part of the
    sources at hand.  The spec fixes [rva_to_mva(rva) = mapped_base + rva],
    [lva_to_mva(lva) = mapped_base + (lva - link_base)] and their inverses,
    computed on unbounded integers.  A translator holds an RVA and the owner;
    [from_*] build it and [to_*] read it in the wanted address space. *)

Module AT.

Record t : Type := mk {
  _rva : Z;
  _owner : PE
}.

Definition from_rva (rva : Z) (owner : PE) : t := mk rva owner.
Definition from_lva (lva : Z) (owner : PE) : t := mk (lva - linked_base owner) owner.
Definition from_mva (mva : Z) (owner : PE) : t := mk (mva - mapped_base owner) owner.

Definition to_rva (a : t) : Z := _rva a.
Definition to_lva (a : t) : Z := linked_base (_owner a) + _rva a.
Definition to_mva (a : t) : Z := mapped_base (_owner a) + _rva a.

(** The translations as the spec names them. *)
Definition rva_to_mva (owner : PE) (rva : Z) : Z := mapped_base owner + rva.
Definition lva_to_mva (owner : PE) (lva : Z) : Z :=
  mapped_base owner + (lva - linked_base owner).

End AT.

(** ** Public methods of [PE] *)

(** [PE.get_symbol(name)]: [self._exports.get(name, None)]. *)
Definition get_symbol (self : PE) (name : string) : option WinSymbol :=
  _exports self !! name.

(** [PE.supports_nx]: [DllCharacteristics & 0x100 != 0]. *)
Definition supports_nx (self : PE) : bool :=
  negb (Z.land (pefile.DllCharacteristics (_pe self)) 0x100 =? 0).

(** ** [class WinSymbol] *)

Module WinSymbol.

(** The base class receives [owner.arch.bytes] as the size and
    [Symbol.TYPE_FUNCTION] as the type. *)
Definition __init__ (owner : objref) (owner_arch : Arch) (name : string)
    (addr : Z) (is_import is_export : bool) : WinSymbol :=
  mk_WinSymbol owner name addr (bytes owner_arch) TYPE_FUNCTION
               is_import is_export.

(** [AT.from_rva(self.addr, self.owner_obj).to_mva()] *)
Definition rebased_addr (σ : heap) (self : WinSymbol) : pyres Z :=
  owner ←! deref σ (sym_owner_obj self);
  Ok (AT.to_mva (AT.from_rva (sym_addr self) owner)).

End WinSymbol.

(** ** The base class of relocations

    Modelled from the spec: [cle.backends.relocations.Relocation] is not part
    of the sources at hand.  By the spec, resolution looks the symbol's name
    up, exactly, in the export table of each candidate in candidate order and
    takes the first match; success makes the relocation resolved, with the
    matched symbol as what it is resolved by; a relocation that is not
    resolved is not patched; a resolved one has its value written to the
    patch site as a pointer-sized little-endian word. *)

Module Relocation.

(** [resolve(obj)] *)
Definition resolve (self : WinReloc) (obj : WinSymbol) : WinReloc :=
  mk_WinReloc (owner_obj self) (symbol self) (addr self) (resolvewith self)
              (reloc_type self) (next_rva self) true (Some obj).

(** The first candidate, in order, that exports [name]. *)
Fixpoint find_export (name : string) (solist : list PE) : option WinSymbol :=
  match solist with
  | [] => None
  | so :: solist' =>
      match get_symbol so name with
      | Some sym => Some sym
      | None => find_export name solist'
      end
  end.

(** [resolve_symbol(solist)]: whether the symbol was found, and the
    relocation afterwards. *)
Definition resolve_symbol (self : WinReloc) (solist : list PE)
    : pyres (bool * WinReloc) :=
  match symbol self with
  | None => Raise AttributeError
  | Some sym =>
      match find_export (sym_name sym) solist with
      | Some found => Ok (true, resolve self found)
      | None => Ok (false, self)
      end
  end.

End Relocation.

(** ** [class WinReloc] *)

Module WinReloc.

Definition __init__ (owner : objref) (symbol : option WinSymbol) (addr : Z)
    (resolvewith : option string) (reloc_type : option Z)
    (next_rva : option Z) : WinReloc :=
  mk_WinReloc owner symbol addr resolvewith reloc_type next_rva false None.

Definition resolve_symbol (self : WinReloc) (solist : list PE)
    (bypass_compatibility : bool) : pyres (bool * WinReloc) :=
  let solist :=
    if negb bypass_compatibility
    then filter (λ x, resolvewith self = provides x) solist
    else solist in
  Relocation.resolve_symbol self solist.

(** The property returns [None] by falling off its end. *)
Definition value (σ : heap) (self : WinReloc) : pyres (option Z) :=
  if resolved self then
    match resolvedby self with
    | Some sym => v ←! WinSymbol.rebased_addr σ sym; Ok (Some v)
    | None => Raise AttributeError
    end
  else Ok None.

(** [AT.from_rva(self.addr, self.owner_obj).to_mva()] *)
Definition rebased_addr (σ : heap) (self : WinReloc) : pyres Z :=
  owner ←! deref σ (owner_obj self);
  Ok (AT.to_mva (AT.from_rva (addr self) owner)).

(** Modelled from the spec: the base class's [relocate], reached through
    [super], is not part of the sources at hand.  By the spec it resolves (by
    the method above, which overrides the base class's) and patches only a
    resolved relocation, writing its value to the patch site. *)
Definition super_relocate (σ : heap) (self : WinReloc) (solist : list PE)
    (bypass_compatibility : bool) : pyres (WinReloc * heap * list logrec) :=
  r ←! resolve_symbol self solist bypass_compatibility;
  let '(found, self') := r in
  if found : bool then
    v ←! value σ self';
    match v with
    | Some v =>
        owner ←! deref σ (owner_obj self');
        data ←! struct.pack_le (Z.to_nat (bytes (arch owner))) v;
        Ok (self',
            <[owner_obj self' :=
                set_memory (Clemory.write_bytes (memory owner) (addr self') data)
                           owner]> σ,
            [])
    | None => Raise TypeError
    end
  else Ok (self', σ, []).

(** [relocate]: the relocation, the store and the log records afterwards.
    The characters that [read_bytes] returns, joined, are the byte string
    that [struct.unpack] decodes. *)
Definition relocate (σ : heap) (self : WinReloc) (solist : list PE)
    (bypass_compatibility : bool) : pyres (WinReloc * heap * list logrec) :=
  match symbol self with
  | None =>
      if bool_decide (reloc_type self = Some pefile.IMAGE_REL_BASED_ABSOLUTE) then
        Ok (self, σ, [])
      else if bool_decide (reloc_type self = Some pefile.IMAGE_REL_BASED_HIGHLOW) then
        owner ←! deref σ (owner_obj self);
        let org_bytes := Clemory.read_bytes (memory owner) (addr self) 4 in
        org_value ←! struct.unpack_I org_bytes;
        let rebased_value := AT.to_mva (AT.from_lva org_value owner) in
        rebased_bytes ←! struct.pack_I (rebased_value `mod` 2 ^ 32);
        Ok (self,
            <[owner_obj self :=
                set_memory (Clemory.write_bytes (memory owner) (addr self) rebased_bytes)
                           owner]> σ,
            [])
      else if bool_decide (reloc_type self = Some pefile.IMAGE_REL_BASED_DIR64) then
        owner ←! deref σ (owner_obj self);
        let org_bytes := Clemory.read_bytes (memory owner) (addr self) 8 in
        org_value ←! struct.unpack_Q org_bytes;
        let rebased_value := AT.to_mva (AT.from_lva org_value owner) in
        rebased_bytes ←! struct.pack_Q rebased_value;
        Ok (self,
            <[owner_obj self :=
                set_memory (Clemory.write_bytes (memory owner) (addr self) rebased_bytes)
                           owner]> σ,
            [])
      else
        Ok (self, σ, [warning_unimplemented_relocation_type (reloc_type self)])
  | Some _ => super_relocate σ self solist bypass_compatibility
  end.

End WinReloc.

(** ** [class PESection] *)

Module PESection.

(** [remap_offset] has the default 0 in the source. *)
Definition __init__ (pe_section : pefile.section_struct) (remap_offset : Z)
    : PESection :=
  mk_PESection
    (pefile.Name pe_section)
    (pefile.Misc_PhysicalAddress pe_section)
    (pefile.VirtualAddress pe_section + remap_offset)
    (pefile.Misc_VirtualSize pe_section)
    (pefile.Characteristics pe_section).

Definition is_readable (self : PESection) : bool :=
  negb (Z.land (characteristics self) 0x40000000 =? 0).

Definition is_writable (self : PESection) : bool :=
  negb (Z.land (characteristics self) 0x80000000 =? 0).

Definition is_executable (self : PESection) : bool :=
  negb (Z.land (characteristics self) 0x20000000 =? 0).

End PESection.

(** [os.path.basename]: what follows the last slash. *)
Fixpoint basename_from (acc s : string) : string :=
  match s with
  | EmptyString => acc
  | String c s' =>
      if bool_decide (c = "/"%char) then basename_from EmptyString s'
      else basename_from (acc +:+ String c EmptyString) s'
  end.

Definition basename (path : string) : string := basename_from EmptyString path.

(** ** [class PE]: construction *)

Module PE.

Definition _get_jmprel (self : PE) : gmap string WinReloc := imports self.

(** The body of the inner loop of [_handle_imports], for one import [imp]
    of the dependency [entry]. *)
Definition _handle_import (this : objref) (entry : pefile.import_desc)
    (self : PE) (imp : pefile.import_data) : PE :=
  let imp_name :=
    match pefile.imp_name imp with
    | Some n => n
    | None => (* must be an import by ordinal *)
        pefile.dll entry +:+ ".ordinal_import." +:+ pretty (pefile.imp_ordinal imp)
    end in
  let symb := WinSymbol.__init__ this (arch self) imp_name 0 true false in
  let reloc :=
    WinReloc.__init__ this (Some symb) (pefile.imp_address imp)
                      (Some (pefile.dll entry)) None None in
  let self := set_imports (<[imp_name := reloc]> (imports self)) self in
  set_relocs (relocs self ++ [reloc]) self.

Definition _handle_imports (this : objref) (self : PE) : PE :=
  match pefile.DIRECTORY_ENTRY_IMPORT (_pe self) with
  | Some table =>
      foldl (λ self entry,
               foldl (_handle_import this entry) self (pefile.imports entry))
            self table
  | None => self
  end.

Definition _handle_exports (this : objref) (self : PE) : PE :=
  match pefile.DIRECTORY_ENTRY_EXPORT (_pe self) with
  | Some symbols =>
      foldl (λ self exp,
               let symb :=
                 WinSymbol.__init__ this (arch self) (pefile.exp_name exp)
                                    (pefile.exp_address exp) false true in
               set_exports (<[pefile.exp_name exp := symb]> (_exports self)) self)
            self symbols
  | None => self
  end.

(** The [while] loop of [_handle_relocs] over the entries of one block:
    the scan position, the relocations recorded so far, and the log. *)
Fixpoint _handle_relocs_while (fuel : nat) (this : objref)
    (entries : list pefile.reloc_entry) (entry_idx : nat)
    (relocs : list WinReloc) (log : list logrec)
    : pyres (list WinReloc * list logrec) :=
  match fuel with
  | O => Diverge
  | S fuel' =>
      if bool_decide (entry_idx < length entries)%nat then
        match entries !! entry_idx with
        | None => Raise IndexError
        | Some reloc_data =>
            if bool_decide (pefile.type reloc_data = pefile.IMAGE_REL_BASED_HIGHADJ)
            then (* occupies 2 entries *)
              if bool_decide (entry_idx = length entries) then
                (* warning, break *)
                Ok (relocs, log ++ [warning_corrupt_relocation_table])
              else
                match entries !! entry_idx with
                | None => Raise IndexError
                | Some next_entry =>
                    let entry_idx := S entry_idx in
                    let reloc :=
                      WinReloc.__init__ this None (pefile.rva reloc_data) None
                                        (Some (pefile.type reloc_data))
                                        (Some (pefile.rva next_entry)) in
                    _handle_relocs_while fuel' this entries (S entry_idx)
                                         (relocs ++ [reloc]) log
                end
            else
              let reloc :=
                WinReloc.__init__ this None (pefile.rva reloc_data) None
                                  (Some (pefile.type reloc_data)) None in
              _handle_relocs_while fuel' this entries (S entry_idx)
                                   (relocs ++ [reloc]) log
        end
      else Ok (relocs, log)
  end.

(** One block: the scan starts at entry 0.  Every turn of the loop moves
    the position forward, so one turn per entry and one more for the exit
    test are all the loop can take. *)
Definition _handle_relocs_block (this : objref) (base_reloc : pefile.base_reloc)
    (relocs : list WinReloc) (log : list logrec)
    : pyres (list WinReloc * list logrec) :=
  _handle_relocs_while (S (length (pefile.entries base_reloc))) this
                       (pefile.entries base_reloc) 0 relocs log.

Definition _handle_relocs (this : objref) (self : PE)
    : pyres (PE * list logrec) :=
  match pefile.DIRECTORY_ENTRY_BASERELOC (_pe self) with
  | Some table =>
      st ←! foldl (λ acc base_reloc,
                     st ←! acc;
                     _handle_relocs_block this base_reloc st.1 st.2)
                  (Ok (relocs self, [])) table;
      Ok (set_relocs st.1 self, st.2)
  | None => Ok (self, [])
  end.

(** The [while] loop of [_register_tls_callbacks].  A word that cannot be
    read is [None], and [None != 0] holds. *)
Fixpoint _register_tls_callbacks_while (fuel : nat) (pe : pefile.PE)
    (callback : option Z) (callback_rva : Z) (callbacks : list (option Z))
    : pyres (list (option Z)) :=
  match fuel with
  | O => Diverge
  | S fuel' =>
      if bool_decide (callback ≠ Some 0) then
        let callbacks := callbacks ++ [callback] in
        let callback_rva := callback_rva + 4 in
        let callback := pefile.get_dword_at_rva pe callback_rva in
        _register_tls_callbacks_while fuel' pe callback callback_rva callbacks
      else Ok callbacks
  end.

Definition _register_tls_callbacks (fuel : nat) (self : PE) (addr : Z)
    : pyres (list (option Z)) :=
  let callbacks := [] in
  let callback_rva := AT.to_rva (AT.from_lva addr self) in
  let callback := pefile.get_dword_at_rva (_pe self) callback_rva in
  _register_tls_callbacks_while fuel (_pe self) callback callback_rva callbacks.

Definition _register_tls (fuel : nat) (self : PE) : pyres PE :=
  match pefile.DIRECTORY_ENTRY_TLS (_pe self) with
  | Some tls =>
      callbacks ←! _register_tls_callbacks fuel self (pefile.AddressOfCallBacks tls);
      Ok (set_tls (pefile.StartAddressOfRawData tls)
                  (pefile.EndAddressOfRawData tls - pefile.StartAddressOfRawData tls)
                  (pefile.AddressOfIndex tls)
                  callbacks
                  (pefile.SizeOfZeroFill tls)
                  self)
  | None => Ok self
  end.

(** Wrap [self._pe.sections] in [PESection] objects, and add them to
    [self.sections]. *)
Definition _register_sections (self : PE) : PE :=
  foldl (λ self pe_section,
           let section := PESection.__init__ pe_section (linked_base self) in
           let self := set_sections (sections self ++ [section]) self in
           set_sections_map (<[name section := section]> (sections_map self)) self)
        self (pefile.sections (_pe self)).

(** [PE.__init__].  [pe] is what [pefile.PE] made of the file, [this] the
    reference under which the new object is stored, [fuel] bounds the scan
    of the TLS callback array. *)
Definition __init__ (fuel : nat) (pefile_installed : bool) (this : objref)
    (binary : option string) (is_main_bin : bool) (custom_arch : option Arch)
    (pe : pefile.PE) : pyres (PE * list logrec) :=
  if negb pefile_installed then Raise CLEError else
  arch ←! match custom_arch with
          | Some a => Ok a
          | None => arch_from_id (pefile.Machine pe)
          end;
  let self :=
    mk_PE binary is_main_bin arch pe "windows"
          (pefile.ImageBase pe) (pefile.ImageBase pe)
          None [] None false None None None None None ∅ ∅ [] [] ∅ EmptyString ∅ in
  let self :=
    set_entry (Some (AT.to_lva (AT.from_rva (pefile.AddressOfEntryPoint pe) self)))
              self in
  let self :=
    set_deps match pefile.DIRECTORY_ENTRY_IMPORT pe with
             | Some table => map pefile.dll table
             | None => []
             end self in
  let self :=
    set_provides match binary with
                 | Some path => if negb is_main_bin then Some (basename path) else None
                 | None => None
                 end self in
  let self := _handle_imports this self in
  let self := _handle_exports this self in
  r ←! _handle_relocs this self;
  let '(self, log) := r in
  self ←! _register_tls fuel self;
  let self := _register_sections self in
  let self :=
    set_linking match deps self with [] => "static" | _ => "dynamic" end self in
  let self :=
    set_memory (Clemory.add_backer 0 (pefile.get_memory_mapped_image pe) (memory self))
               self in
  Ok (self, log).

End PE.

(** ** The loader's placement of objects *)

(** [class MockBackend(cle.backends.Backend)] of [tests/test_overlap.py]. *)
Module MockBackend.

Record t : Type := mk {
  linked_base : Z;
  mapped_base : Z;
  size : Z
}.

Definition __init__ (linked_base size : Z) : t := mk linked_base linked_base size.

Definition get_max_addr (self : t) : Z := mapped_base self + size self.

Definition set_mapped_base (v : Z) (self : t) : t :=
  mk (linked_base self) v (size self).

End MockBackend.

(** Modelled from the spec: the loader ([cle.loader.Loader]) is not part of
    the sources at hand.  By the spec, [add_object] takes the object's link
    base as the desired base and its image size as the extent; there is a
    conflict when [[desired, desired+extent)] intersects the range of an
    object already placed; without conflict the object is mapped at the
    desired base, with conflict at the greatest end address of the objects
    already placed; the object is then appended to the placed ones. *)
Module Loader.

(** Do [[a, b)] and [[c, d)] have an address in common? *)
Definition intersects (a b c d : Z) : bool := Z.max a c <? Z.min b d.

Definition conflict (desired extent : Z) (placed : list MockBackend.t) : bool :=
  existsb (λ p, intersects desired (desired + extent)
                           (MockBackend.mapped_base p)
                           (MockBackend.mapped_base p + MockBackend.size p))
          placed.

(** Python's [max] of a sequence: the empty one raises [ValueError]. *)
Definition py_max (l : list Z) : pyres Z :=
  match l with
  | [] => Raise ValueError
  | x :: l' => Ok (foldl Z.max x l')
  end.

Definition add_object (placed : list MockBackend.t) (obj : MockBackend.t)
    : pyres (list MockBackend.t) :=
  let desired := MockBackend.linked_base obj in
  let extent := MockBackend.size obj in
  base ←! (if conflict desired extent placed
           then py_max (map (λ p, MockBackend.mapped_base p + MockBackend.size p) placed)
           else Ok desired);
  Ok (placed ++ [MockBackend.set_mapped_base base obj]).

(** Adding a sequence of objects, one after the other. *)
Definition add_objects (placed : list MockBackend.t) (objs : list MockBackend.t)
    : pyres (list MockBackend.t) :=
  foldl (λ acc obj, placed ←! acc; add_object placed obj) (Ok placed) objs.

(** Two placed objects overlap when some address lies in both ranges
    [[mapped_base, get_max_addr())]. *)
Definition overlap (p q : MockBackend.t) : Prop :=
  ∃ x : Z,
    MockBackend.mapped_base p ≤ x < MockBackend.get_max_addr p ∧
    MockBackend.mapped_base q ≤ x < MockBackend.get_max_addr q.

Definition pairwise_non_overlapping (placed : list MockBackend.t) : Prop :=
  ∀ (i j : nat) (p q : MockBackend.t),
    i ≠ j → placed !! i = Some p → placed !! j = Some q → ¬ overlap p q.

End Loader.

(** ** Placement of a PE object

    Modelled from the spec: what the loader does to an object that it places
    is not part of the sources at hand.  By the spec (4.4, steps 3, 4 and 6)
    the loader assigns the mapped base and then triggers the translation of
    the sections of the object, now that the mapped base is final: every
    section follows the object by the distance between the mapped base and
    the link base.  An object is placed once. *)
Definition translate_section (delta : Z) (section : PESection) : PESection :=
  mk_PESection (name section) (offset section) (vaddr section + delta)
               (memsize section) (characteristics section).

Definition place (base : Z) (obj : PE) : PE :=
  let obj := set_mapped_base base obj in
  let delta := mapped_base obj - linked_base obj in
  let obj := set_sections (map (translate_section delta) (sections obj)) obj in
  set_sections_map (translate_section delta <$> sections_map obj) obj.

(** ** What the steps of construction leave alone

    The bases, the sections and the parsed file of [o'] are those of [o]. *)
Definition same_placement (o o' : PE) : Prop :=
  linked_base o' = linked_base o ∧
  mapped_base o' = mapped_base o ∧
  sections o' = sections o ∧
  _pe o' = _pe o.

(** ** What the scan of a relocation block records

    The relocations that the loop of [_handle_relocs] appends for a block, by
    recursion on the entries left to scan: an entry of type HIGHADJ is
    recorded with its own RVA as [next_rva] and takes the entry after it, if
    any, out of the scan; any other entry is recorded alone. *)
Fixpoint recorded_relocs (this : objref) (entries : list pefile.reloc_entry)
    : list WinReloc :=
  match entries with
  | [] => []
  | reloc_data :: entries' =>
      if bool_decide (pefile.type reloc_data = pefile.IMAGE_REL_BASED_HIGHADJ) then
        WinReloc.__init__ this None (pefile.rva reloc_data) None
                          (Some (pefile.type reloc_data))
                          (Some (pefile.rva reloc_data))
        :: match entries' with
           | [] => []
           | _ :: entries'' => recorded_relocs this entries''
           end
      else
        WinReloc.__init__ this None (pefile.rva reloc_data) None
                          (Some (pefile.type reloc_data)) None
        :: recorded_relocs this entries'
  end.

(** ** Concrete objects

    A small 32-bit library, linked at 0x400000, whose image starts with the
    little-endian word 0x00401000 and whose only base relocation, of type
    HIGHLOW, patches that word. *)

Module lib32.

Definition image : list Z := [0x00; 0x10; 0x40; 0x00; 0xef; 0xbe; 0xad; 0xde].

Definition text : pefile.section_struct :=
  pefile.mk_section_struct ".text" 0x400 0x1000 0x200 0x60000020.

Definition file : pefile.PE :=
  pefile.mk_PE 0x14c 0x400000 0x1000 0x100
               None
               (Some [pefile.mk_export_data "foo" 0x1234])
               (Some [pefile.mk_base_reloc [pefile.mk_reloc_entry 0 3]])
               None
               [text]
               image.

(** The reference under which the library is stored. *)
Definition ref : objref := 1%nat.

Definition foo : WinSymbol := WinSymbol.__init__ ref (mk_Arch 4) "foo" 0x1234 false true.

Definition reloc : WinReloc :=
  WinReloc.__init__ ref None 0 None (Some pefile.IMAGE_REL_BASED_HIGHLOW) None.

(** The object that [PE.__init__] builds from [file]. *)
Definition obj : PE :=
  mk_PE (Some "/opt/win/lib.dll") false (mk_Arch 4) file "windows"
        0x400000 0x400000 (Some 0x401000) [] (Some "lib.dll")
        false None None None None None
        {[ "foo" := foo ]} ∅ [reloc]
        [PESection.__init__ text 0x400000]
        {[ ".text" := PESection.__init__ text 0x400000 ]}
        "static"
        (Clemory.add_backer 0 image ∅).

(** The library after the loader moved it to 0x500000. *)
Definition displaced : PE := set_mapped_base 0x500000 obj.

Definition store : heap := {[ ref := displaced ]}.

End lib32.

(** Another library, which exports a symbol of the same name [foo], and an
    import of [foo] that is bound to [lib.dll]. *)

Module other32.

Definition file : pefile.PE :=
  pefile.mk_PE 0x14c 0x10000000 0x1000 0x100
               None (Some [pefile.mk_export_data "foo" 0x777]) None None [] [].

Definition ref : objref := 2%nat.

Definition foo : WinSymbol := WinSymbol.__init__ ref (mk_Arch 4) "foo" 0x777 false true.

Definition obj : PE :=
  mk_PE (Some "/opt/win/other.dll") false (mk_Arch 4) file "windows"
        0x10000000 0x10000000 (Some 0x10001000) [] (Some "other.dll")
        false None None None None None
        {[ "foo" := foo ]} ∅ [] [] ∅ "static" ∅.

End other32.

Module app32.

Definition ref : objref := 0%nat.

Definition foo : WinSymbol := WinSymbol.__init__ ref (mk_Arch 4) "foo" 0 true false.

(** The relocation that [_handle_imports] records for [foo] of [lib.dll],
    with its slot at RVA 0x2000. *)
Definition import_foo : WinReloc :=
  WinReloc.__init__ ref (Some foo) 0x2000 (Some "lib.dll") None None.

End app32.

(** ** TLS callback arrays

    The layout of a callback array in a mapped image: from [rva] on, the
    words of [callbacks], each [width] bytes wide, little-endian and not
    zero, and a zero word after them. *)
Definition callback_array (image : list Z) (rva : Z) (width : nat)
    (callbacks : list Z) : Prop :=
  0 ≤ rva ∧
  Forall (λ c, 0 < c < 2 ^ (8 * Z.of_nat width)) callbacks ∧
  take (width * S (length callbacks)) (drop (Z.to_nat rva) image)
    = flat_map (struct.le_bytes width) (callbacks ++ [0]).

(** A 32-bit image linked at 0x400000 with two TLS callbacks, the functions
    at 0x402000 and 0x403000: its callback array, at RVA 4, is the two
    pointers, four bytes wide, and a null pointer; one more byte follows. *)

Module tls32.

Definition image : list Z :=
  [0x4d; 0x5a; 0x90; 0x00;
   0x00; 0x20; 0x40; 0x00;
   0x00; 0x30; 0x40; 0x00;
   0x00; 0x00; 0x00; 0x00;
   0xcc].

Definition tls : pefile.tls_struct :=
  pefile.mk_tls_struct 0x400000 0x400004 0x400000 0x400004 0.

Definition file : pefile.PE :=
  pefile.mk_PE 0x14c 0x400000 0x1000 0x100 None None None (Some tls) [] image.

Definition ref : objref := 4%nat.

(** The object that [PE.__init__] builds from [file]. *)
Definition obj : PE :=
  mk_PE (Some "/opt/win/tls32.dll") false (mk_Arch 4) file "windows"
        0x400000 0x400000 (Some 0x401000) [] (Some "tls32.dll")
        true (Some 0x400000) (Some 4) (Some 0x400000)
        (Some [Some 0x402000; Some 0x403000]) (Some 0)
        ∅ ∅ [] [] ∅ "static"
        (Clemory.add_backer 0 image ∅).

End tls32.

(** A 64-bit image linked at 0x140000000 with one TLS callback, the function
    at 0x140001000: its callback array, at RVA 8, is that pointer, eight
    bytes wide, and a null pointer. *)

Module lib64.

Definition image : list Z :=
  [0x4d; 0x5a; 0x90; 0x00; 0x03; 0x00; 0x00; 0x00;
   0x00; 0x10; 0x00; 0x40; 0x01; 0x00; 0x00; 0x00;
   0x00; 0x00; 0x00; 0x00; 0x00; 0x00; 0x00; 0x00].

Definition tls : pefile.tls_struct :=
  pefile.mk_tls_struct 0x140000000 0x140000008 0x140000000 0x140000008 0.

Definition file : pefile.PE :=
  pefile.mk_PE 0x8664 0x140000000 0x1000 0x100 None None None (Some tls) [] image.

Definition ref : objref := 3%nat.

(** The object that [PE.__init__] builds from [file]. *)
Definition obj : PE :=
  mk_PE (Some "/opt/win/lib64.dll") false (mk_Arch 8) file "windows"
        0x140000000 0x140000000 (Some 0x140001000) [] (Some "lib64.dll")
        true (Some 0x140000000) (Some 8) (Some 0x140000000)
        (Some [Some 0x40001000; Some 1]) (Some 0)
        ∅ ∅ [] [] ∅ "static"
        (Clemory.add_backer 0 image ∅).

End lib64.

(** ** The format probe

    A file-like object: its bytes and the position of the next read. *)

Module Stream.

Record t : Type := mk {
  data : list Z;
  pos : nat
}.

(** [read(n)]: up to [n] bytes from the position on, which moves behind
    them. *)
Definition read (n : nat) (stream : t) : list Z * t :=
  let bs := take n (drop (pos stream) (data stream)) in
  (bs, mk (data stream) (pos stream + length bs)).

(** [seek(offset)] *)
Definition seek (offset : nat) (stream : t) : t := mk (data stream) offset.

End Stream.

(** The byte strings ['MZ'] and ['PE\0\0']. *)
Definition MZ : list Z := [0x4d; 0x5a].
Definition PE00 : list Z := [0x50; 0x45; 0x00; 0x00].

(** [PE.is_compatible(stream)]: the verdict and the stream afterwards.  The
    format ['I'] of [struct.unpack] is the unsigned 32-bit word in the byte
    order of the host, taken here to be little-endian; [s[a:b]] is
    [take (b - a) (drop a s)]. *)
Definition is_compatible (stream : Stream.t) : pyres (bool * Stream.t) :=
  let '(identstring, stream) := Stream.read 0x1000 stream in
  let stream := Stream.seek 0 stream in
  if bool_decide (take 2 identstring = MZ)
     && bool_decide (0x40 < length identstring)%nat
  then
    peptr ←! struct.unpack_I (take (0x40 - 0x3c) (drop 0x3c identstring));
    if bool_decide (peptr < Z.of_nat (length identstring))
       && bool_decide (take 4 (drop (Z.to_nat peptr) identstring) = PE00)
    then Ok (true, stream)
    else Ok (false, stream)
  else Ok (false, stream).

(** ** What the import and export tables contribute

    The name under which [_handle_imports] files an import. *)
Definition import_name (entry : pefile.import_desc) (imp : pefile.import_data)
    : string :=
  match pefile.imp_name imp with
  | Some n => n
  | None => pefile.dll entry +:+ ".ordinal_import." +:+ pretty (pefile.imp_ordinal imp)
  end.

(** The relocation that [_handle_imports] makes for an import. *)
Definition import_reloc (this : objref) (a : Arch) (entry : pefile.import_desc)
    (imp : pefile.import_data) : WinReloc :=
  WinReloc.__init__ this
    (Some (WinSymbol.__init__ this a (import_name entry imp) 0 true false))
    (pefile.imp_address imp) (Some (pefile.dll entry)) None None.

(** The imports of a table, in the order of the table, each with its name. *)
Definition import_relocs (this : objref) (a : Arch)
    (table : list pefile.import_desc) : list (string * WinReloc) :=
  flat_map (λ entry,
              map (λ imp, (import_name entry imp, import_reloc this a entry imp))
                  (pefile.imports entry))
           table.

(** The symbol that [_handle_exports] makes for an export. *)
Definition export_symbol (this : objref) (a : Arch) (exp : pefile.export_data)
    : WinSymbol :=
  WinSymbol.__init__ this a (pefile.exp_name exp) (pefile.exp_address exp)
                     false true.

(** A table read as absent when the file has no such directory. *)
Definition table_of {A : Type} (directory : option (list A)) : list A :=
  match directory with
  | Some table => table
  | None => []
  end.

(** Filing a list of pairs in a dictionary, one after the other. *)
Definition insert_all {V : Type} (m : gmap string V) (l : list (string * V))
    : gmap string V :=
  foldl (λ m kv, <[kv.1 := kv.2]> m) m l.

(** The relocation that the scan records for an entry that is not HIGHADJ. *)
Definition base_reloc_of (this : objref) (reloc_data : pefile.reloc_entry)
    : WinReloc :=
  WinReloc.__init__ this None (pefile.rva reloc_data) None
                    (Some (pefile.type reloc_data)) None.

(** A byte string: every element is a byte. *)
Definition byte_string (bs : list Z) : Prop := Forall (λ b, 0 ≤ b < 256) bs.

(** ** More concrete objects

    A stream that holds a minimal PE file: ['MZ'], the offset 0x40 of the PE
    header at 0x3c, and ['PE\0\0'] at 0x40. *)
Definition mz_stream : Stream.t :=
  Stream.mk (MZ ++ replicate 58 0 ++ [0x40; 0x00; 0x00; 0x00] ++ PE00) 0.

(** A 64-bit library linked at 0x140000000 and mapped at 0x150000000, whose
    image starts with the pointer 0x140001000 and then a null pointer. *)
Module reloc64.

Definition image : list Z :=
  [0x00; 0x10; 0x00; 0x40; 0x01; 0x00; 0x00; 0x00;
   0x00; 0x00; 0x00; 0x00; 0x00; 0x00; 0x00; 0x00].

Definition file : pefile.PE :=
  pefile.mk_PE 0x8664 0x140000000 0x1000 0x100 None None
               (Some [pefile.mk_base_reloc
                        [pefile.mk_reloc_entry 0 pefile.IMAGE_REL_BASED_DIR64;
                         pefile.mk_reloc_entry 8 pefile.IMAGE_REL_BASED_DIR64]])
               None [] image.

Definition ref : objref := 5%nat.

Definition reloc0 : WinReloc :=
  WinReloc.__init__ ref None 0 None (Some pefile.IMAGE_REL_BASED_DIR64) None.

Definition reloc8 : WinReloc :=
  WinReloc.__init__ ref None 8 None (Some pefile.IMAGE_REL_BASED_DIR64) None.

(** The object that [PE.__init__] builds from [file]. *)
Definition obj : PE :=
  mk_PE (Some "/opt/win/reloc64.dll") false (mk_Arch 8) file "windows"
        0x140000000 0x140000000 (Some 0x140001000) [] (Some "reloc64.dll")
        false None None None None None
        ∅ ∅ [reloc0; reloc8] [] ∅ "static"
        (Clemory.add_backer 0 image ∅).

(** Moved up, and moved down to 0x100000000. *)
Definition moved_up : PE := set_mapped_base 0x150000000 obj.
Definition moved_down : PE := set_mapped_base 0x100000000 obj.

End reloc64.

(** An application with two dependencies, one import by ordinal, an export
    table that names [run] twice, and two sections of the same name. *)
Module app.

Definition text : pefile.section_struct :=
  pefile.mk_section_struct ".text" 0x400 0x1000 0x200 0x60000020.

Definition data1 : pefile.section_struct :=
  pefile.mk_section_struct ".data" 0x600 0x2000 0x100 0xC0000040.

Definition data2 : pefile.section_struct :=
  pefile.mk_section_struct ".data" 0x700 0x3000 0x100 0x40000040.

Definition file : pefile.PE :=
  pefile.mk_PE 0x14c 0x400000 0x1000 0x100
    (Some [pefile.mk_import_desc "lib.dll"
             [pefile.mk_import_data (Some "foo") 1 0x2000;
              pefile.mk_import_data None 7 0x2004];
           pefile.mk_import_desc "other.dll"
             [pefile.mk_import_data (Some "bar") 2 0x2008]])
    (Some [pefile.mk_export_data "run" 0x1100;
           pefile.mk_export_data "stop" 0x1200;
           pefile.mk_export_data "run" 0x1300])
    (Some [pefile.mk_base_reloc
             [pefile.mk_reloc_entry 0x1004 pefile.IMAGE_REL_BASED_HIGHLOW;
              pefile.mk_reloc_entry 0x1008 pefile.IMAGE_REL_BASED_ABSOLUTE]])
    None
    [text; data1; data2]
    [0x4d; 0x5a].

Definition ref : objref := 6%nat.

(** The object that [PE.__init__] builds from [file], as the main binary. *)
Definition obj : PE :=
  mk_PE (Some "/opt/win/app.exe") true (mk_Arch 4) file "windows"
        0x400000 0x400000 (Some 0x401000) ["lib.dll"; "other.dll"] None
        false None None None None None
        (insert_all ∅
           (map (λ exp, (pefile.exp_name exp, export_symbol ref (mk_Arch 4) exp))
                (table_of (pefile.DIRECTORY_ENTRY_EXPORT file))))
        (insert_all ∅
           (import_relocs ref (mk_Arch 4)
                          (table_of (pefile.DIRECTORY_ENTRY_IMPORT file))))
        ((import_relocs ref (mk_Arch 4)
                        (table_of (pefile.DIRECTORY_ENTRY_IMPORT file))).*2
         ++ [base_reloc_of ref (pefile.mk_reloc_entry 0x1004 pefile.IMAGE_REL_BASED_HIGHLOW);
             base_reloc_of ref (pefile.mk_reloc_entry 0x1008 pefile.IMAGE_REL_BASED_ABSOLUTE)])
        [PESection.__init__ text 0x400000;
         PESection.__init__ data1 0x400000;
         PESection.__init__ data2 0x400000]
        (insert_all ∅
           [(".text", PESection.__init__ text 0x400000);
            (".data", PESection.__init__ data1 0x400000);
            (".data", PESection.__init__ data2 0x400000)])
        "dynamic"
        (Clemory.add_backer 0 [0x4d; 0x5a] ∅).

End app.

(** An image whose TLS callback array, at RVA 4, runs to the end of the
    image without a zero word. *)
Module tls_open.

Definition image : list Z :=
  [0x4d; 0x5a; 0x90; 0x00;
   0x00; 0x20; 0x40; 0x00;
   0x00; 0x30; 0x40; 0x00].

Definition tls : pefile.tls_struct :=
  pefile.mk_tls_struct 0x400000 0x400004 0x400000 0x400004 0.

Definition file : pefile.PE :=
  pefile.mk_PE 0x14c 0x400000 0x1000 0x100 None None None (Some tls) [] image.

(** The object at the point where [_register_tls] is reached. *)
Definition obj : PE :=
  mk_PE (Some "/opt/win/open.dll") false (mk_Arch 4) file "windows"
        0x400000 0x400000 (Some 0x401000) [] (Some "open.dll")
        false None None None None None
        ∅ ∅ [] [] ∅ EmptyString ∅.

End tls_open.

(** * Properties *)

(** ** Little-endian words and the memory image *)

Section struct_facts.

Lemma length_le_bytes (n : nat) (v : Z) : length (struct.le_bytes n v) = n.
Proof. revert v; induction n as [|n IH]; intros v; simpl; [done | by rewrite IH]. Qed.

(** Decoding what was encoded gives the value back, cut to the width. *)
Lemma le_value_le_bytes (n : nat) (v : Z) :
  struct.le_value (struct.le_bytes n v) = v `mod` 2 ^ (8 * Z.of_nat n).
Proof.
  revert v; induction n as [|n IH]; intros v.
  - simpl. by rewrite Z.mod_1_r.
  - cbn [struct.le_bytes struct.le_value]. rewrite IH.
    replace (8 * Z.of_nat (S n)) with (8 + 8 * Z.of_nat n) by lia.
    rewrite Z.pow_add_r by lia. change (2 ^ 8) with 256.
    rewrite Z.rem_mul_r by lia. lia.
Qed.

Lemma unpack_pack (n : nat) (v : Z) (bs : list Z) :
  struct.pack_le n v = Ok bs → struct.unpack_le n bs = Ok v.
Proof.
  unfold struct.pack_le, struct.unpack_le. case_bool_decide as Hv; [|done].
  intros [= <-]. rewrite length_le_bytes, bool_decide_eq_true_2 by done.
  by rewrite le_value_le_bytes, Z.mod_small.
Qed.

Lemma pack_I_mod (v : Z) :
  struct.pack_I (v `mod` 2 ^ 32) = Ok (struct.le_bytes 4 (v `mod` 2 ^ 32)).
Proof.
  unfold struct.pack_I, struct.pack_le. rewrite bool_decide_eq_true_2; [done|].
  change (8 * Z.of_nat 4) with 32. apply Z.mod_pos_bound. lia.
Qed.

End struct_facts.

Section Clemory_facts.

Implicit Types (m : gmap Z Z) (data : list Z).

Lemma write_bytes_lookup_below m a data x :
  x < a → Clemory.write_bytes m a data !! x = m !! x.
Proof.
  revert m a; induction data as [|b data IH]; intros m a Hx; simpl; [done|].
  rewrite IH by lia. apply lookup_insert_ne. lia.
Qed.

Lemma write_bytes_lookup_above m a data x :
  a + Z.of_nat (length data) ≤ x → Clemory.write_bytes m a data !! x = m !! x.
Proof.
  revert m a; induction data as [|b data IH]; intros m a Hx; simpl in *; [done|].
  rewrite IH by lia. apply lookup_insert_ne. lia.
Qed.

(** Reading back what was just written. *)
Lemma read_bytes_write_bytes m a data :
  Clemory.read_bytes (Clemory.write_bytes m a data) a (length data) = data.
Proof.
  revert m a; induction data as [|b data IH]; intros m a; simpl; [done|].
  rewrite write_bytes_lookup_below by lia.
  rewrite lookup_insert_eq. by rewrite IH.
Qed.

End Clemory_facts.


(** ** Base relocations of type HIGHLOW *)

(** C2.  A HIGHLOW base relocation (no symbol) whose patch site holds four
    bytes that decode, little-endian, to the linked address [V] is applied
    without error and without a log record; afterwards the site holds exactly
    the four bytes of [(mapped_base + (V - linked_base)) mod 2^32], least
    significant first, with the bases of the owning object.  The bases of the
    owner and every byte outside the site are left as they were. *)
Theorem highlow_patches_rebased_word (σ : heap) (self : WinReloc) (owner : PE)
    (solist : list PE) (bypass_compatibility : bool) (V : Z) :
  symbol self = None →
  reloc_type self = Some pefile.IMAGE_REL_BASED_HIGHLOW →
  σ !! owner_obj self = Some owner →
  struct.unpack_I (Clemory.read_bytes (memory owner) (addr self) 4) = Ok V →
  let patched := (mapped_base owner + (V - linked_base owner)) `mod` 2 ^ 32 in
  ∃ owner' : PE,
    WinReloc.relocate σ self solist bypass_compatibility
      = Ok (self, <[owner_obj self := owner']> σ, []) ∧
    mapped_base owner' = mapped_base owner ∧
    linked_base owner' = linked_base owner ∧
    Clemory.read_bytes (memory owner') (addr self) 4 = struct.le_bytes 4 patched ∧
    struct.unpack_I (Clemory.read_bytes (memory owner') (addr self) 4) = Ok patched ∧
    (∀ x : Z, ¬ (addr self ≤ x < addr self + 4) → memory owner' !! x = memory owner !! x).
Proof.
  intros Hsym Hty Hown HV patched.
  exists (set_memory (Clemory.write_bytes (memory owner) (addr self)
                                          (struct.le_bytes 4 patched)) owner).
  assert (Hread : Clemory.read_bytes
                    (Clemory.write_bytes (memory owner) (addr self)
                                         (struct.le_bytes 4 patched))
                    (addr self) 4 = struct.le_bytes 4 patched).
  { pose proof (read_bytes_write_bytes (memory owner) (addr self)
                                       (struct.le_bytes 4 patched)) as H.
    by rewrite length_le_bytes in H. }
  split_and!.
  - unfold WinReloc.relocate. rewrite Hsym, Hty.
    rewrite bool_decide_eq_false_2 by (unfold pefile.IMAGE_REL_BASED_ABSOLUTE,
      pefile.IMAGE_REL_BASED_HIGHLOW; congruence).
    rewrite bool_decide_eq_true_2 by done.
    unfold deref. rewrite Hown. cbn [pybind]. rewrite HV. cbn [pybind].
    unfold AT.to_mva, AT.from_lva. cbn [AT._owner AT._rva].
    rewrite pack_I_mod. done.
  - done.
  - done.
  - exact Hread.
  - change (memory (set_memory ?m _)) with m. rewrite Hread.
    apply (unpack_pack 4), pack_I_mod.
  - intros x Hx. change (memory (set_memory ?m _)) with m.
    destruct (decide (x < addr self)) as [Hlt|Hge].
    + by apply write_bytes_lookup_below.
    + apply write_bytes_lookup_above. rewrite length_le_bytes. lia.
Qed.

Lemma highlow_patches_rebased_word_witness :
  ∃ owner' : PE,
    WinReloc.relocate lib32.store lib32.reloc [] false
      = Ok (lib32.reloc, <[lib32.ref := owner']> lib32.store, []) ∧
    mapped_base owner' = 0x500000 ∧
    linked_base owner' = 0x400000 ∧
    Clemory.read_bytes (memory owner') 0 4 = [0x00; 0x10; 0x50; 0x00] ∧
    struct.unpack_I (Clemory.read_bytes (memory owner') 0 4) = Ok 0x501000 ∧
    (∀ x : Z, ¬ (0 ≤ x < 0 + 4) → memory owner' !! x = memory lib32.displaced !! x).
Proof.
  apply (highlow_patches_rebased_word lib32.store lib32.reloc lib32.displaced
                                      [] false 0x401000);
    reflexivity.
Defined.


(** ** Placement without overlap *)

Section placement.

Implicit Types (placed objs : list MockBackend.t) (p q obj : MockBackend.t).

Lemma intersects_spec (a b c d : Z) :
  Loader.intersects a b c d = true ↔ ∃ x : Z, a ≤ x < b ∧ c ≤ x < d.
Proof.
  unfold Loader.intersects. rewrite Z.ltb_lt. split.
  - intros H. exists (Z.max a c). lia.
  - intros (x & Ha & Hc). lia.
Qed.

Lemma overlap_sym p q : Loader.overlap p q → Loader.overlap q p.
Proof. intros (x & Hp & Hq). by exists x. Qed.

Lemma foldl_max_ge (l : list Z) (x0 : Z) :
  x0 ≤ foldl Z.max x0 l ∧ ∀ y, y ∈ l → y ≤ foldl Z.max x0 l.
Proof.
  revert x0; induction l as [|z l IH]; intros x0; simpl.
  - split; [lia|]. intros y Hy. by apply elem_of_nil in Hy.
  - destruct (IH (Z.max x0 z)) as [H0 Hl]. split; [lia|].
    intros y [->|Hy]%elem_of_cons; [lia | by apply Hl].
Qed.

Lemma py_max_ge (l : list Z) (m : Z) :
  Loader.py_max l = Ok m → ∀ y, y ∈ l → y ≤ m.
Proof.
  destruct l as [|x l]; [done|]. intros [= <-] y.
  destruct (foldl_max_ge l x) as [H0 Hl].
  intros [->|Hy]%elem_of_cons; [done | by apply Hl].
Qed.

(** Without conflict, the desired range meets no placed range. *)
Lemma conflict_false desired extent placed p :
  Loader.conflict desired extent placed = false → p ∈ placed →
  ¬ ∃ x : Z, desired ≤ x < desired + extent ∧
             MockBackend.mapped_base p ≤ x < MockBackend.get_max_addr p.
Proof.
  unfold Loader.conflict. intros Hc Hp Hx.
  apply intersects_spec in Hx.
  assert (existsb (λ p, Loader.intersects desired (desired + extent)
                          (MockBackend.mapped_base p)
                          (MockBackend.mapped_base p + MockBackend.size p))
                  placed = true) as Habs; [|congruence].
  apply existsb_exists. exists p. split; [by apply list_elem_of_In | exact Hx].
Qed.

(** A conflict needs a placed object to conflict with. *)
Lemma conflict_true_nonempty desired extent placed :
  Loader.conflict desired extent placed = true → placed ≠ [].
Proof. by destruct placed. Qed.

(** The base that [add_object] gives to an object. *)
Lemma add_object_ok placed obj :
  ∃ base : Z,
    Loader.add_object placed obj = Ok (placed ++ [MockBackend.set_mapped_base base obj]) ∧
    ∀ p, p ∈ placed → ¬ Loader.overlap p (MockBackend.set_mapped_base base obj).
Proof.
  unfold Loader.add_object.
  destruct (Loader.conflict _ _ placed) eqn:Hc.
  - destruct placed as [|p0 placed']; [done|].
    set (ends := map _ (p0 :: placed')).
    destruct (Loader.py_max ends) as [m| |] eqn:Hm; [|done..].
    exists m. split; [done|].
    intros p Hp (x & Hxp & Hxo).
    assert (MockBackend.get_max_addr p ≤ m) as Hle.
    { apply (py_max_ge ends m Hm). subst ends.
      apply list_elem_of_fmap. by exists p. }
    simpl in Hxo. lia.
  - exists (MockBackend.linked_base obj). split; [done|].
    intros p Hp Hov. apply overlap_sym in Hov.
    apply (conflict_false _ _ _ p Hc Hp).
    destruct Hov as (x & Hxo & Hxp). exists x. split; [|done].
    unfold MockBackend.get_max_addr in Hxo. simpl in Hxo. lia.
Qed.

Lemma pairwise_non_overlapping_snoc placed obj :
  Loader.pairwise_non_overlapping placed →
  (∀ p, p ∈ placed → ¬ Loader.overlap p obj) →
  Loader.pairwise_non_overlapping (placed ++ [obj]).
Proof.
  intros Hpw Hnew i j p q Hij Hi Hj.
  apply lookup_snoc_Some in Hi as [[Hi1 Hi2]|[Hi1 Hi2]];
    apply lookup_snoc_Some in Hj as [[Hj1 Hj2]|[Hj1 Hj2]].
  - by apply (Hpw i j).
  - subst q. apply Hnew. by eapply list_elem_of_lookup_2.
  - subst p. intros Hov%overlap_sym. revert Hov. apply Hnew.
    by eapply list_elem_of_lookup_2.
  - lia.
Qed.

Lemma add_objects_cons placed obj objs placed' :
  Loader.add_object placed obj = Ok placed' →
  Loader.add_objects placed (obj :: objs) = Loader.add_objects placed' objs.
Proof. unfold Loader.add_objects. simpl. by intros ->. Qed.

(** Adding any sequence to placed objects that do not overlap succeeds,
    keeps the earlier placements, and leaves no two ranges overlapping. *)
Lemma add_objects_ok objs placed :
  Loader.pairwise_non_overlapping placed →
  ∃ added,
    Loader.add_objects placed objs = Ok (placed ++ added) ∧
    Forall2 (λ p obj, MockBackend.linked_base p = MockBackend.linked_base obj ∧
                      MockBackend.size p = MockBackend.size obj) added objs ∧
    Loader.pairwise_non_overlapping (placed ++ added).
Proof.
  revert placed; induction objs as [|obj objs IH]; intros placed Hpw.
  - exists []. rewrite app_nil_r. by split_and!.
  - destruct (add_object_ok placed obj) as (base & Hadd & Hfree).
    destruct (IH (placed ++ [MockBackend.set_mapped_base base obj]))
      as (added & Hrun & Hsame & Hpw').
    { by apply pairwise_non_overlapping_snoc. }
    exists (MockBackend.set_mapped_base base obj :: added).
    rewrite (add_objects_cons _ _ _ _ Hadd), Hrun.
    rewrite <- app_assoc in *. simpl in *. split_and!; [done| |done].
    by constructor.
Qed.

End placement.

(** C1.  Whatever sequence of objects is added with [add_object], starting
    from an empty loader, every addition succeeds, each object keeps its link
    base and size, and no two of the final ranges
    [[mapped_base, mapped_base + size)] have an address in common.  In
    particular, over a main object placed at 0x8048000 (of any positive
    size), an object linked at 0x8047000 of size 0x2000 is mapped strictly
    above 0x8048000, and an object linked at 0x8047000 of size 0x1000 added
    after it is mapped at 0x8047000. *)
Theorem add_object_ranges_never_overlap :
  (∀ objs : list MockBackend.t,
     ∃ placed : list MockBackend.t,
       Loader.add_objects [] objs = Ok placed ∧
       Forall2 (λ p obj, MockBackend.linked_base p = MockBackend.linked_base obj ∧
                         MockBackend.size p = MockBackend.size obj) placed objs ∧
       Loader.pairwise_non_overlapping placed) ∧
  (∀ main_size : Z,
     0 < main_size →
     ∃ main obj1 obj2 : MockBackend.t,
       Loader.add_objects [] [MockBackend.__init__ 0x8048000 main_size;
                              MockBackend.__init__ 0x8047000 0x2000;
                              MockBackend.__init__ 0x8047000 0x1000]
         = Ok [main; obj1; obj2] ∧
       MockBackend.mapped_base main = 0x8048000 ∧
       MockBackend.mapped_base obj1 > 0x8048000 ∧
       MockBackend.mapped_base obj2 = 0x8047000).
Proof.
  split.
  - intros objs. destruct (add_objects_ok objs []) as (added & Hrun & Hsame & Hpw).
    { intros i j p q _ Hi. by rewrite lookup_nil in Hi. }
    by exists added.
  - intros main_size Hpos.
    exists (MockBackend.mk 0x8048000 0x8048000 main_size),
           (MockBackend.mk 0x8047000 (0x8048000 + main_size) 0x2000),
           (MockBackend.mk 0x8047000 0x8047000 0x1000).
    split_and!; [|done|simpl; lia|done].
    unfold Loader.add_objects, Loader.add_object, Loader.conflict,
      Loader.intersects, MockBackend.__init__, MockBackend.set_mapped_base.
    cbn [foldl pybind existsb app map orb Loader.py_max
         MockBackend.linked_base MockBackend.mapped_base MockBackend.size].
    replace (Z.max 134508544 134512640 <? Z.min (134508544 + 8192) (134512640 + main_size))
      with true by (symmetry; apply Z.ltb_lt; lia).
    cbn [foldl pybind existsb app map orb Loader.py_max
         MockBackend.linked_base MockBackend.mapped_base MockBackend.size].
    replace (Z.max 134508544 134512640 <? Z.min (134508544 + 4096) (134512640 + main_size))
      with false by (symmetry; apply Z.ltb_ge; lia).
    replace (Z.max 134508544 (134512640 + main_size)
               <? Z.min (134508544 + 4096) (134512640 + main_size + 8192))
      with false by (symmetry; apply Z.ltb_ge; lia).
    done.
Qed.

Lemma add_object_ranges_never_overlap_witness :
  ∃ main obj1 obj2 : MockBackend.t,
    Loader.add_objects [] [MockBackend.__init__ 0x8048000 0x3000;
                           MockBackend.__init__ 0x8047000 0x2000;
                           MockBackend.__init__ 0x8047000 0x1000]
      = Ok [main; obj1; obj2] ∧
    MockBackend.mapped_base main = 0x8048000 ∧
    MockBackend.mapped_base obj1 > 0x8048000 ∧
    MockBackend.mapped_base obj2 = 0x8047000.
Proof.
  apply (proj2 add_object_ranges_never_overlap 0x3000). lia.
Defined.


(** ** Resolution of imports against their provider *)

Section resolution.

Implicit Types (solist : list PE) (so : PE) (name : string).

Lemma find_export_Some name solist sym :
  Relocation.find_export name solist = Some sym →
  ∃ so, so ∈ solist ∧ get_symbol so name = Some sym.
Proof.
  induction solist as [|so solist IH]; simpl; [done|].
  destruct (get_symbol so name) as [s|] eqn:Hs.
  - intros [= <-]. exists so. split; [constructor | done].
  - intros (so' & Hin & Hget)%IH. exists so'. split; [by constructor | done].
Qed.

Lemma find_export_None name solist :
  Relocation.find_export name solist = None →
  ∀ so, so ∈ solist → get_symbol so name = None.
Proof.
  induction solist as [|so0 solist IH]; simpl; intros Hnone so Hin.
  - by apply elem_of_nil in Hin.
  - destruct (get_symbol so0 name) as [s|] eqn:Hs; [done|].
    apply elem_of_cons in Hin as [->|Hin]; [done | by apply IH].
Qed.

(** What the base class's resolution does with the candidates it is given. *)
Lemma Relocation_resolve_symbol_spec (self : WinReloc) (sym : WinSymbol) solist :
  symbol self = Some sym →
  ∃ (found : bool) (self' : WinReloc),
    Relocation.resolve_symbol self solist = Ok (found, self') ∧
    if found
    then ∃ so s, so ∈ solist ∧ get_symbol so (sym_name sym) = Some s ∧
                 self' = Relocation.resolve self s
    else self' = self ∧ ∀ so, so ∈ solist → get_symbol so (sym_name sym) = None.
Proof.
  intros Hsym. unfold Relocation.resolve_symbol. rewrite Hsym.
  destruct (Relocation.find_export (sym_name sym) solist) as [s|] eqn:Hfind.
  - exists true, (Relocation.resolve self s). split; [done|].
    apply find_export_Some in Hfind as (so & Hin & Hget). by exists so, s.
  - exists false, self. split; [done|]. split; [done|].
    by apply find_export_None.
Qed.

End resolution.

(** C3.  An import relocation bound to the provider [dll]:
    - resolved without bypass, it succeeds only with a symbol that a
      candidate providing [dll] exports under the symbol's name, and fails
      exactly when no such candidate exports the name;
    - a candidate whose [provides] is not [dll] has no part in it: the result
      is the same with that candidate taken out of the list, whatever it
      exports;
    - resolved with bypass, every candidate is searched: it fails only when
      no candidate of the whole list exports the name. *)
Theorem resolve_symbol_keeps_to_provider (self : WinReloc) (sym : WinSymbol)
    (dll : string) (solist : list PE) :
  symbol self = Some sym →
  resolvewith self = Some dll →
  (∃ (found : bool) (self' : WinReloc),
     WinReloc.resolve_symbol self solist false = Ok (found, self') ∧
     if found
     then ∃ so s, so ∈ solist ∧ provides so = Some dll ∧
                  get_symbol so (sym_name sym) = Some s ∧
                  resolved self' = true ∧ resolvedby self' = Some s
     else self' = self ∧
          ∀ so, so ∈ solist → provides so = Some dll →
                get_symbol so (sym_name sym) = None) ∧
  (∀ (before after : list PE) (so : PE),
     solist = before ++ so :: after →
     provides so ≠ Some dll →
     WinReloc.resolve_symbol self solist false
       = WinReloc.resolve_symbol self (before ++ after) false) ∧
  (∃ (found : bool) (self' : WinReloc),
     WinReloc.resolve_symbol self solist true = Ok (found, self') ∧
     if found
     then ∃ so s, so ∈ solist ∧ get_symbol so (sym_name sym) = Some s ∧
                  resolved self' = true ∧ resolvedby self' = Some s
     else self' = self ∧
          ∀ so, so ∈ solist → get_symbol so (sym_name sym) = None).
Proof.
  intros Hsym Hwith. split_and!.
  - unfold WinReloc.resolve_symbol. cbn [negb]. rewrite Hwith.
    destruct (Relocation_resolve_symbol_spec self sym
                (filter (λ x, Some dll = provides x) solist) Hsym)
      as (found & self' & Hrun & Hres).
    exists found, self'. split; [done|]. destruct found.
    + destruct Hres as (so & s & [Hprov Hin]%list_elem_of_filter & Hget & ->).
      by exists so, s.
    + destruct Hres as [-> Hnone]. split; [done|].
      intros so Hin Hprov. apply Hnone, list_elem_of_filter. by split.
  - intros before after so -> Hprov.
    unfold WinReloc.resolve_symbol. cbn [negb]. rewrite Hwith.
    rewrite !filter_app, filter_cons_False; [done | congruence].
  - unfold WinReloc.resolve_symbol. cbn [negb].
    destruct (Relocation_resolve_symbol_spec self sym solist Hsym)
      as (found & self' & Hrun & Hres).
    exists found, self'. split; [done|]. destruct found; [|done].
    destruct Hres as (so & s & Hin & Hget & ->). by exists so, s.
Qed.

Lemma resolve_symbol_keeps_to_provider_witness :
  ∃ (found : bool) (self' : WinReloc),
    WinReloc.resolve_symbol app32.import_foo [other32.obj; lib32.obj] false
      = Ok (found, self') ∧
    if found
    then ∃ so s, so ∈ [other32.obj; lib32.obj] ∧ provides so = Some "lib.dll" ∧
                 get_symbol so "foo" = Some s ∧
                 resolved self' = true ∧ resolvedby self' = Some s
    else self' = app32.import_foo ∧
         ∀ so, so ∈ [other32.obj; lib32.obj] → provides so = Some "lib.dll" →
               get_symbol so "foo" = None.
Proof.
  apply (proj1 (resolve_symbol_keeps_to_provider
                  app32.import_foo app32.foo "lib.dll" [other32.obj; lib32.obj]
                  eq_refl eq_refl)).
Defined.

(** The import of [foo] from [lib.dll], with [other.dll] ahead of [lib.dll]
    among the candidates: bound to the export of [lib.dll]. *)
Example import_resolves_to_its_provider :
  WinReloc.resolve_symbol app32.import_foo [other32.obj; lib32.obj] false
    = Ok (true, Relocation.resolve app32.import_foo lib32.foo).
Proof. vm_compute. reflexivity. Qed.

(** With [other.dll] as the only candidate the import stays unresolved,
    although [other.dll] exports [foo]; with bypass it is bound to it. *)
Example import_skips_other_provider :
  WinReloc.resolve_symbol app32.import_foo [other32.obj] false
    = Ok (false, app32.import_foo).
Proof. vm_compute. reflexivity. Qed.

Example import_bypass_takes_any_provider :
  WinReloc.resolve_symbol app32.import_foo [other32.obj] true
    = Ok (true, Relocation.resolve app32.import_foo other32.foo).
Proof. vm_compute. reflexivity. Qed.

(** [PE.__init__] on the file of the small library builds [lib32.obj]. *)
Example lib32_obj_is_built :
  PE.__init__ 1 true lib32.ref (Some "/opt/win/lib.dll") false None lib32.file
    = Ok (lib32.obj, []).
Proof. vm_compute. reflexivity. Qed.


(** ** Reported addresses *)

(** The two paths through the translator, in the spec's names. *)
Lemma AT_from_rva_to_mva (owner : PE) (rva : Z) :
  AT.to_mva (AT.from_rva rva owner) = AT.rva_to_mva owner rva.
Proof. reflexivity. Qed.

Lemma AT_from_lva_to_mva (owner : PE) (lva : Z) :
  AT.to_mva (AT.from_lva lva owner) = AT.lva_to_mva owner lva.
Proof. reflexivity. Qed.

(** C4.  For a symbol and for a relocation whose owner is in the store, the
    reported [rebased_addr] is the RVA-to-MVA translation of the stored
    address, [mapped_base + addr] with the owner's current mapped base, also
    after the loader has given the owner a new mapped base.  It is not the
    LVA-to-MVA translation: the two differ at every address as soon as the
    link base is not zero. *)
Theorem rebased_addr_is_rva_to_mva (σ : heap) (owner : PE) :
  (∀ s : WinSymbol,
     σ !! sym_owner_obj s = Some owner →
     WinSymbol.rebased_addr σ s = Ok (AT.rva_to_mva owner (sym_addr s)) ∧
     AT.rva_to_mva owner (sym_addr s) = mapped_base owner + sym_addr s ∧
     ∀ base : Z,
       WinSymbol.rebased_addr (<[sym_owner_obj s := set_mapped_base base owner]> σ) s
         = Ok (base + sym_addr s)) ∧
  (∀ r : WinReloc,
     σ !! owner_obj r = Some owner →
     WinReloc.rebased_addr σ r = Ok (AT.rva_to_mva owner (addr r)) ∧
     AT.rva_to_mva owner (addr r) = mapped_base owner + addr r ∧
     ∀ base : Z,
       WinReloc.rebased_addr (<[owner_obj r := set_mapped_base base owner]> σ) r
         = Ok (base + addr r)) ∧
  (linked_base owner ≠ 0 →
   ∀ a : Z, AT.rva_to_mva owner a ≠ AT.lva_to_mva owner a).
Proof.
  split_and!.
  - intros s Hown. split_and!; [|done|].
    + unfold WinSymbol.rebased_addr, deref. by rewrite Hown.
    + intros base. unfold WinSymbol.rebased_addr, deref.
      by rewrite lookup_insert_eq.
  - intros r Hown. split_and!; [|done|].
    + unfold WinReloc.rebased_addr, deref. by rewrite Hown.
    + intros base. unfold WinReloc.rebased_addr, deref.
      by rewrite lookup_insert_eq.
  - intros Hbase a. unfold AT.rva_to_mva, AT.lva_to_mva. lia.
Qed.

Lemma rebased_addr_is_rva_to_mva_witness :
  WinSymbol.rebased_addr lib32.store lib32.foo = Ok 0x501234 ∧
  WinReloc.rebased_addr lib32.store lib32.reloc = Ok 0x500000 ∧
  AT.lva_to_mva lib32.displaced 0x1234 = 0x101234.
Proof.
  destruct (rebased_addr_is_rva_to_mva lib32.store lib32.displaced)
    as (Hsym & Hrel & _).
  split_and!.
  - exact (proj1 (Hsym lib32.foo eq_refl)).
  - exact (proj1 (Hrel lib32.reloc eq_refl)).
  - reflexivity.
Defined.


(** ** The value of a relocation *)

Lemma resolve_symbol_failed (self self' : WinReloc) (solist : list PE)
    (bypass_compatibility : bool) :
  WinReloc.resolve_symbol self solist bypass_compatibility = Ok (false, self') →
  self' = self.
Proof.
  unfold WinReloc.resolve_symbol, Relocation.resolve_symbol.
  destruct (symbol self); [|done].
  destruct (Relocation.find_export _ _); [done|]. by intros [= <-].
Qed.

(** C10.  Reading [value] of a relocation that is not resolved returns
    [None] and raises nothing: so for a relocation as its constructor leaves
    it, and for one whose resolution failed.  A number is returned only for a
    resolved relocation, and it is the rebased address, [mapped_base + addr]
    on the exporting object, of the symbol it is resolved by. *)
Theorem value_is_none_unless_resolved (σ : heap) (self : WinReloc) :
  (resolved self = false → WinReloc.value σ self = Ok None) ∧
  (∀ v : Z, WinReloc.value σ self = Ok (Some v) → resolved self = true) ∧
  (∀ (sym : WinSymbol) (exporter : PE),
     resolved self = true → resolvedby self = Some sym →
     σ !! sym_owner_obj sym = Some exporter →
     WinSymbol.rebased_addr σ sym = Ok (mapped_base exporter + sym_addr sym) ∧
     WinReloc.value σ self = Ok (Some (mapped_base exporter + sym_addr sym))) ∧
  (∀ (solist : list PE) (bypass_compatibility : bool) (self' : WinReloc),
     resolved self = false →
     WinReloc.resolve_symbol self solist bypass_compatibility = Ok (false, self') →
     WinReloc.value σ self' = Ok None) ∧
  (∀ (owner : objref) (symbol : option WinSymbol) (addr : Z)
     (resolvewith : option string) (reloc_type next_rva : option Z),
     WinReloc.value σ (WinReloc.__init__ owner symbol addr resolvewith
                                         reloc_type next_rva) = Ok None).
Proof.
  split_and!.
  - intros Hres. unfold WinReloc.value. by rewrite Hres.
  - intros v. unfold WinReloc.value. by destruct (resolved self).
  - intros sym exporter Hres Hby Hown.
    assert (WinSymbol.rebased_addr σ sym = Ok (mapped_base exporter + sym_addr sym))
      as Haddr.
    { unfold WinSymbol.rebased_addr, deref. by rewrite Hown. }
    split; [done|]. unfold WinReloc.value. by rewrite Hres, Hby, Haddr.
  - intros solist bypass self' Hres ->%resolve_symbol_failed.
    unfold WinReloc.value. by rewrite Hres.
  - done.
Qed.

Lemma value_is_none_unless_resolved_witness :
  WinReloc.value lib32.store app32.import_foo = Ok None ∧
  WinReloc.value lib32.store (Relocation.resolve app32.import_foo lib32.foo)
    = Ok (Some 0x501234).
Proof.
  split.
  - exact (proj1 (value_is_none_unless_resolved lib32.store app32.import_foo)
                 eq_refl).
  - exact (proj2 (proj1 (proj2 (proj2
             (value_is_none_unless_resolved
                lib32.store (Relocation.resolve app32.import_foo lib32.foo))))
             lib32.foo lib32.displaced eq_refl eq_refl eq_refl)).
Defined.


(** ** The scan of the base-relocation table *)

Section reloc_scan.

Variable this : objref.
Implicit Types (entries : list pefile.reloc_entry) (relocs : list WinReloc)
               (log : list logrec).

Lemma recorded_relocs_highadj entries reloc_data :
  pefile.type reloc_data = pefile.IMAGE_REL_BASED_HIGHADJ →
  recorded_relocs this (reloc_data :: entries)
    = WinReloc.__init__ this None (pefile.rva reloc_data) None
                        (Some (pefile.type reloc_data))
                        (Some (pefile.rva reloc_data))
      :: recorded_relocs this (drop 1 entries).
Proof.
  intros Hty. cbn [recorded_relocs]. rewrite bool_decide_eq_true_2 by done.
  by destruct entries.
Qed.

Lemma recorded_relocs_other entries reloc_data :
  pefile.type reloc_data ≠ pefile.IMAGE_REL_BASED_HIGHADJ →
  recorded_relocs this (reloc_data :: entries)
    = WinReloc.__init__ this None (pefile.rva reloc_data) None
                        (Some (pefile.type reloc_data)) None
      :: recorded_relocs this entries.
Proof. intros Hty. cbn [recorded_relocs]. by rewrite bool_decide_eq_false_2. Qed.

(** The loop, from any scan position: with fuel for the entries left and the
    exit test, it ends, records what [recorded_relocs] tells for the entries
    from the position on, and adds nothing to the log. *)
Lemma _handle_relocs_while_spec entries (fuel entry_idx : nat) relocs log :
  (length entries - entry_idx < fuel)%nat →
  PE._handle_relocs_while fuel this entries entry_idx relocs log
    = Ok (relocs ++ recorded_relocs this (drop entry_idx entries), log).
Proof.
  revert entry_idx relocs.
  induction fuel as [|fuel IH]; intros entry_idx relocs Hfuel; [lia|].
  cbn [PE._handle_relocs_while]. case_bool_decide as Hidx.
  - destruct (lookup_lt_is_Some_2 entries entry_idx Hidx) as [reloc_data Hget].
    rewrite Hget, (drop_S _ _ _ Hget).
    case_bool_decide as Hty.
    + rewrite bool_decide_eq_false_2 by lia.
      rewrite IH by lia. rewrite recorded_relocs_highadj by done.
      rewrite drop_drop, <- app_assoc. simpl.
      by replace (S (entry_idx + 1)) with (S (S entry_idx)) by lia.
    + rewrite IH by lia. rewrite recorded_relocs_other by done.
      by rewrite <- app_assoc.
  - rewrite drop_ge by lia. by rewrite app_nil_r.
Qed.

(** The scan of one block always ends and never logs. *)
Lemma _handle_relocs_block_spec (base_reloc : pefile.base_reloc) relocs log :
  PE._handle_relocs_block this base_reloc relocs log
    = Ok (relocs ++ recorded_relocs this (pefile.entries base_reloc), log).
Proof.
  unfold PE._handle_relocs_block.
  rewrite _handle_relocs_while_spec by lia. by rewrite drop_0.
Qed.

End reloc_scan.

(** The whole table: every block is scanned to its end, nothing is logged. *)
Lemma _handle_relocs_blocks_spec (this : objref) (table : list pefile.base_reloc)
    (relocs : list WinReloc) (log : list logrec) :
  foldl (λ acc base_reloc,
           st ←! acc; PE._handle_relocs_block this base_reloc st.1 st.2)
        (Ok (relocs, log)) table
    = Ok (relocs ++ flat_map (λ b, recorded_relocs this (pefile.entries b)) table,
          log).
Proof.
  revert relocs; induction table as [|b table IH]; intros relocs; simpl.
  - by rewrite app_nil_r.
  - rewrite _handle_relocs_block_spec, IH. by rewrite <- app_assoc.
Qed.

(** A HIGHADJ entry with an entry after it: one relocation is recorded for
    the two, the scan goes on behind the second, and the [next_rva] recorded
    is the RVA of the HIGHADJ entry, whatever the RVA of the second. *)
Lemma highadj_pair_scan (this : objref) (reloc_data next_entry : pefile.reloc_entry)
    (rest : list pefile.reloc_entry) (relocs : list WinReloc) (log : list logrec) :
  pefile.type reloc_data = pefile.IMAGE_REL_BASED_HIGHADJ →
  PE._handle_relocs_block this
      (pefile.mk_base_reloc (reloc_data :: next_entry :: rest)) relocs log
    = PE._handle_relocs_block this (pefile.mk_base_reloc rest)
        (relocs ++ [WinReloc.__init__ this None (pefile.rva reloc_data) None
                                      (Some pefile.IMAGE_REL_BASED_HIGHADJ)
                                      (Some (pefile.rva reloc_data))])
        log.
Proof.
  intros Hty. rewrite !_handle_relocs_block_spec. cbn [pefile.entries].
  rewrite recorded_relocs_highadj by done. rewrite Hty.
  by rewrite <- app_assoc.
Qed.

(** C5.  On the table HIGHADJ at RVA 0x10, HIGHLOW at 0x20, HIGHLOW at 0x30
    the scan takes the first two entries together and records one relocation
    for them, then one for the third; but the [next_rva] it records for the
    pair is 0x10, the RVA of the HIGHADJ entry itself, and not 0x20, the RVA
    of the entry that follows it. *)
Theorem highadj_next_rva_is_its_own_rva :
  PE._handle_relocs_block 1%nat
      (pefile.mk_base_reloc [pefile.mk_reloc_entry 0x10 pefile.IMAGE_REL_BASED_HIGHADJ;
                             pefile.mk_reloc_entry 0x20 pefile.IMAGE_REL_BASED_HIGHLOW;
                             pefile.mk_reloc_entry 0x30 pefile.IMAGE_REL_BASED_HIGHLOW])
      [] []
    = Ok ([WinReloc.__init__ 1%nat None 0x10 None
                             (Some pefile.IMAGE_REL_BASED_HIGHADJ) (Some 0x10);
           WinReloc.__init__ 1%nat None 0x30 None
                             (Some pefile.IMAGE_REL_BASED_HIGHLOW) None],
          []).
Proof. vm_compute. reflexivity. Qed.

(** C6.  On the table HIGHLOW at RVA 0x10, HIGHADJ at 0x20, whose last entry
    is a HIGHADJ entry with nothing after it, the scan logs no warning and
    records a relocation for the truncated entry, with the entry's own RVA as
    [next_rva]. *)
Theorem truncated_highadj_is_recorded_without_warning :
  PE._handle_relocs_block 1%nat
      (pefile.mk_base_reloc [pefile.mk_reloc_entry 0x10 pefile.IMAGE_REL_BASED_HIGHLOW;
                             pefile.mk_reloc_entry 0x20 pefile.IMAGE_REL_BASED_HIGHADJ])
      [] []
    = Ok ([WinReloc.__init__ 1%nat None 0x10 None
                             (Some pefile.IMAGE_REL_BASED_HIGHLOW) None;
           WinReloc.__init__ 1%nat None 0x20 None
                             (Some pefile.IMAGE_REL_BASED_HIGHADJ) (Some 0x20)],
          []).
Proof. vm_compute. reflexivity. Qed.

(** A stretch of entries without HIGHADJ at the head of a table is recorded
    entry by entry, and the scan goes on behind it. *)
Lemma recorded_relocs_app_other (this : objref)
    (before rest : list pefile.reloc_entry) :
  Forall (λ e, pefile.type e ≠ pefile.IMAGE_REL_BASED_HIGHADJ) before →
  recorded_relocs this (before ++ rest)
    = map (λ e, WinReloc.__init__ this None (pefile.rva e) None
                                  (Some (pefile.type e)) None) before
      ++ recorded_relocs this rest.
Proof.
  induction 1 as [|e before He _ IH]; [done|].
  cbn [app map]. rewrite recorded_relocs_other by done. by rewrite IH.
Qed.



(** The scan of that block, computed: the entry of type HIGH is recorded,
    with its RVA and type, between those around it. *)
Example block_with_unimplemented_type_scanned :
  PE._handle_relocs_block lib32.ref
      (pefile.mk_base_reloc
         [pefile.mk_reloc_entry 0x10 pefile.IMAGE_REL_BASED_HIGHLOW;
          pefile.mk_reloc_entry 0x20 pefile.IMAGE_REL_BASED_HIGH;
          pefile.mk_reloc_entry 0x30 pefile.IMAGE_REL_BASED_HIGHADJ;
          pefile.mk_reloc_entry 0x40 pefile.IMAGE_REL_BASED_HIGHLOW])
      [] []
    = Ok ([WinReloc.__init__ lib32.ref None 0x10 None
                             (Some pefile.IMAGE_REL_BASED_HIGHLOW) None;
           WinReloc.__init__ lib32.ref None 0x20 None
                             (Some pefile.IMAGE_REL_BASED_HIGH) None;
           WinReloc.__init__ lib32.ref None 0x30 None
                             (Some pefile.IMAGE_REL_BASED_HIGHADJ) (Some 0x30)],
          []).
Proof. vm_compute. reflexivity. Qed.


(** ** The scan of the TLS callback array *)

Example lib64_obj_is_built :
  PE.__init__ 3 true lib64.ref (Some "/opt/win/lib64.dll") false None lib64.file
    = Ok (lib64.obj, []).
Proof. vm_compute. reflexivity. Qed.

Example tls32_obj_is_built :
  PE.__init__ 3 true tls32.ref (Some "/opt/win/tls32.dll") false None tls32.file
    = Ok (tls32.obj, []).
Proof. vm_compute. reflexivity. Qed.

Section tls_scan.

Implicit Types (pe : pefile.PE) (ws callbacks : list Z) (l : list Z).

(** The [i]-th word of an array of 4-byte words laid out at the head of [l]. *)
Lemma take_drop_dword_array ws l (i : nat) (w : Z) :
  take (4 * length ws) l = flat_map (struct.le_bytes 4) ws →
  ws !! i = Some w →
  take 4 (drop (4 * i) l) = struct.le_bytes 4 w.
Proof.
  revert l i; induction ws as [|w0 ws IH]; intros l i Hl Hi; [done|].
  cbn [flat_map length] in Hl.
  replace (4 * S (length ws))%nat with (4 + 4 * length ws)%nat in Hl by lia.
  assert (take 4 l = struct.le_bytes 4 w0) as Hhead.
  { transitivity (take 4 (take (4 + 4 * length ws) l)).
    - rewrite take_take. f_equal; lia.
    - rewrite Hl. by rewrite take_app_length' by (by rewrite length_le_bytes). }
  assert (take (4 * length ws) (drop 4 l) = flat_map (struct.le_bytes 4) ws) as Htail.
  { rewrite take_drop_commute, Hl.
    by rewrite drop_app_length' by (by rewrite length_le_bytes). }
  destruct i as [|i].
  - injection Hi as <-. by rewrite drop_0.
  - replace (4 * S i)%nat with (4 + 4 * i)%nat by lia.
    rewrite <- drop_drop. by apply IH.
Qed.

(** Reading, with [get_dword_at_rva], a word of an array of 4-byte words
    laid out in the image at [rva]. *)
Lemma get_dword_at_rva_in_array pe (rva : Z) ws (i : nat) (w : Z) :
  0 ≤ rva →
  take (4 * length ws) (drop (Z.to_nat rva) (pefile.memory_mapped_image pe))
    = flat_map (struct.le_bytes 4) ws →
  ws !! i = Some w →
  pefile.get_dword_at_rva pe (rva + 4 * Z.of_nat i) = Some (w `mod` 2 ^ 32).
Proof.
  intros Hrva Hl Hi. unfold pefile.get_dword_at_rva.
  rewrite bool_decide_eq_true_2 by lia.
  replace (Z.to_nat (rva + 4 * Z.of_nat i)) with (Z.to_nat rva + 4 * i)%nat by lia.
  rewrite <- drop_drop, (take_drop_dword_array ws _ i w Hl Hi).
  rewrite length_le_bytes, bool_decide_eq_true_2 by done.
  by rewrite le_value_le_bytes.
Qed.

(** The loop over words that read as [callbacks], none zero, then as zero. *)
Lemma _register_tls_callbacks_while_spec pe callbacks :
  ∀ (fuel : nat) (rva : Z) (seen : list (option Z)),
    (length callbacks < fuel)%nat →
    (∀ (i : nat) (c : Z), callbacks !! i = Some c →
       c ≠ 0 ∧ pefile.get_dword_at_rva pe (rva + 4 * Z.of_nat i) = Some c) →
    pefile.get_dword_at_rva pe (rva + 4 * Z.of_nat (length callbacks)) = Some 0 →
    PE._register_tls_callbacks_while fuel pe (pefile.get_dword_at_rva pe rva) rva seen
      = Ok (seen ++ (Some <$> callbacks)).
Proof.
  induction callbacks as [|c callbacks IH]; intros fuel rva seen Hfuel Hwords Hzero;
    (destruct fuel as [|fuel]; [simpl in Hfuel; lia|]);
    cbn [PE._register_tls_callbacks_while].
  - simpl in Hzero. rewrite Z.add_0_r in Hzero. rewrite Hzero.
    rewrite bool_decide_eq_false_2 by (intros H; by apply H).
    by rewrite app_nil_r.
  - destruct (Hwords 0%nat c eq_refl) as [Hc Hread].
    simpl in Hread. rewrite Z.add_0_r in Hread. rewrite Hread.
    rewrite bool_decide_eq_true_2 by congruence.
    rewrite IH.
    + by rewrite <- app_assoc.
    + simpl in Hfuel. lia.
    + intros i c' Hi. destruct (Hwords (S i) c' Hi) as [Hc' Hread'].
      split; [done|]. rewrite <- Hread'. f_equal; lia.
    + rewrite <- Hzero. f_equal; simpl; lia.
Qed.

(** The scan of a callback array of 4-byte words. *)
Lemma _register_tls_callbacks_spec (self : PE) (addr : Z) callbacks (fuel : nat) :
  callback_array (pefile.memory_mapped_image (_pe self))
                 (addr - linked_base self) 4 callbacks →
  (length callbacks < fuel)%nat →
  PE._register_tls_callbacks fuel self addr = Ok (Some <$> callbacks).
Proof.
  intros (Hrva & Hrange & Hl) Hfuel.
  unfold PE._register_tls_callbacks, AT.to_rva, AT.from_lva. cbn [AT._rva].
  replace (S (length callbacks)) with (length (callbacks ++ [0])) in Hl
    by (rewrite length_app; simpl; lia).
  rewrite (_register_tls_callbacks_while_spec (_pe self) callbacks); [done|done| |].
  - intros i c Hi.
    assert (0 < c < 2 ^ 32) as Hc.
    { eapply (Forall_lookup_1 _ _ _ _ Hrange Hi). }
    split; [lia|].
    rewrite (get_dword_at_rva_in_array _ _ (callbacks ++ [0]) i c Hrva Hl).
    + by rewrite Z.mod_small by lia.
    + by apply lookup_app_l_Some.
  - rewrite (get_dword_at_rva_in_array _ _ (callbacks ++ [0])
               (length callbacks) 0 Hrva Hl); [done|].
    by rewrite list_lookup_middle.
Qed.

End tls_scan.

(** A callback array of 4-byte words, as an image with 4-byte pointers has
    it: when the address passed to the scan, taken as a linked address and so
    translated to the RVA [addr - linked_base], is that of callbacks laid out
    as 4-byte little-endian words, none zero, with a zero word after them,
    the scan ends (with fuel for one turn per callback and the exit test) and
    returns exactly those callbacks in the order of the array.  The result
    does not depend on anything behind the zero word: it is the same for
    every image that agrees up to and including that word, whatever follows
    or whether anything follows. *)
Theorem tls_callbacks_are_the_dwords_before_zero (self : PE) (addr : Z)
    (callbacks : list Z) :
  callback_array (pefile.memory_mapped_image (_pe self))
                 (addr - linked_base self) 4 callbacks →
  AT.to_rva (AT.from_lva addr self) = addr - linked_base self ∧
  (∀ fuel : nat,
     (length callbacks < fuel)%nat →
     PE._register_tls_callbacks fuel self addr = Ok (Some <$> callbacks)) ∧
  (∀ (self' : PE) (fuel : nat),
     linked_base self' = linked_base self →
     take (Z.to_nat (addr - linked_base self) + 4 * S (length callbacks))
          (pefile.memory_mapped_image (_pe self'))
       = take (Z.to_nat (addr - linked_base self) + 4 * S (length callbacks))
              (pefile.memory_mapped_image (_pe self)) →
     (length callbacks < fuel)%nat →
     PE._register_tls_callbacks fuel self' addr = Ok (Some <$> callbacks)).
Proof.
  intros Harr. split_and!.
  - done.
  - intros fuel Hfuel. by apply _register_tls_callbacks_spec.
  - intros self' fuel Hbase Hsame Hfuel.
    apply _register_tls_callbacks_spec; [|done].
    destruct Harr as (Hrva & Hrange & Hl). rewrite Hbase.
    split_and!; [done..|].
    by rewrite take_drop_commute, Hsame, <- take_drop_commute.
Qed.

Lemma tls_callbacks_are_the_dwords_before_zero_witness :
  AT.to_rva (AT.from_lva 0x400004 tls32.obj) = 4 ∧
  PE._register_tls_callbacks 3 tls32.obj 0x400004
    = Ok [Some 0x402000; Some 0x403000].
Proof.
  assert (callback_array (pefile.memory_mapped_image (_pe tls32.obj))
                         (0x400004 - linked_base tls32.obj) 4
                         [0x402000; 0x403000]) as Harr.
  { split_and!; [by vm_compute | | reflexivity].
    repeat constructor; by vm_compute. }
  destruct (tls_callbacks_are_the_dwords_before_zero
              tls32.obj 0x400004 [0x402000; 0x403000] Harr) as (Hrva & Hscan & _).
  split; [exact Hrva|]. apply (Hscan 3%nat). simpl. lia.
Defined.

(** C8.  On the 64-bit image [lib64], whose pointers are eight bytes wide,
    the callback array holds the one callback 0x140001000 before the null
    pointer.  The scan reads four bytes at a time: it returns the two halves
    0x40001000 and 1 of that pointer, and for no amount of fuel the callback
    itself. *)
Theorem tls_callbacks_of_a_64bit_image_are_halved :
  bytes (arch lib64.obj) = 8 ∧
  callback_array (pefile.memory_mapped_image (_pe lib64.obj))
                 (0x140000008 - linked_base lib64.obj) 8 [0x140001000] ∧
  PE._register_tls_callbacks 3 lib64.obj 0x140000008
    = Ok [Some 0x40001000; Some 1] ∧
  ∀ fuel : nat,
    PE._register_tls_callbacks fuel lib64.obj 0x140000008
      ≠ Ok (Some <$> [0x140001000]).
Proof.
  split_and!.
  - reflexivity.
  - split_and!; [by vm_compute | | reflexivity].
    repeat constructor; by vm_compute.
  - vm_compute. reflexivity.
  - intros [|[|[|fuel]]]; vm_compute; discriminate.
Qed.


(** ** Sections *)

Section construction.

Lemma same_placement_refl (o : PE) : same_placement o o.
Proof. by split_and!. Qed.

Lemma same_placement_trans (o1 o2 o3 : PE) :
  same_placement o1 o2 → same_placement o2 o3 → same_placement o1 o3.
Proof.
  intros (H1 & H2 & H3 & H4) (K1 & K2 & K3 & K4).
  split_and!; congruence.
Qed.

Lemma foldl_same_placement {B : Type} (f : PE → B → PE) (l : list B) (o : PE) :
  (∀ o b, same_placement o (f o b)) → same_placement o (foldl f o l).
Proof.
  intros Hf. revert o; induction l as [|b l IH]; intros o; simpl.
  - apply same_placement_refl.
  - eapply same_placement_trans; [apply Hf | apply IH].
Qed.

Lemma _handle_imports_same_placement (this : objref) (self : PE) :
  same_placement self (PE._handle_imports this self).
Proof.
  unfold PE._handle_imports.
  destruct (pefile.DIRECTORY_ENTRY_IMPORT (_pe self)); [|apply same_placement_refl].
  apply foldl_same_placement. intros o entry.
  apply foldl_same_placement. intros o' imp. by split_and!.
Qed.

Lemma _handle_exports_same_placement (this : objref) (self : PE) :
  same_placement self (PE._handle_exports this self).
Proof.
  unfold PE._handle_exports.
  destruct (pefile.DIRECTORY_ENTRY_EXPORT (_pe self)); [|apply same_placement_refl].
  apply foldl_same_placement. intros o exp. by split_and!.
Qed.

(** [_handle_relocs] always returns, and logs nothing. *)
Lemma _handle_relocs_total (this : objref) (self : PE) :
  ∃ relocs' : list WinReloc,
    PE._handle_relocs this self = Ok (set_relocs relocs' self, []).
Proof.
  unfold PE._handle_relocs.
  destruct (pefile.DIRECTORY_ENTRY_BASERELOC (_pe self)) as [table|].
  - rewrite _handle_relocs_blocks_spec. cbn [pybind]. by eexists.
  - exists (relocs self). by destruct self.
Qed.

Lemma _register_tls_same_placement (fuel : nat) (self self' : PE) :
  PE._register_tls fuel self = Ok self' → same_placement self self'.
Proof.
  unfold PE._register_tls.
  destruct (pefile.DIRECTORY_ENTRY_TLS (_pe self)) as [tls|].
  - destruct (PE._register_tls_callbacks _ _ _); cbn [pybind]; [|done..].
    intros [= <-]. by split_and!.
  - intros [= <-]. apply same_placement_refl.
Qed.

(** The loop of [_register_sections] over any list of section records. *)
Lemma _register_sections_fold (l : list pefile.section_struct) (self : PE)
    (step : PE → pefile.section_struct → PE) :
  step = (λ self pe_section,
            let section := PESection.__init__ pe_section (linked_base self) in
            let self := set_sections (sections self ++ [section]) self in
            set_sections_map (<[name section := section]> (sections_map self)) self) →
  linked_base (foldl step self l) = linked_base self ∧
  mapped_base (foldl step self l) = mapped_base self ∧
  sections (foldl step self l)
    = sections self ++ ((λ s, PESection.__init__ s (linked_base self)) <$> l).
Proof.
  intros Hstep. revert self; induction l as [|s l IH]; intros self; cbn [foldl].
  - by rewrite app_nil_r.
  - destruct (IH (step self s)) as (H1 & H2 & H3).
    rewrite H1, H2, H3. subst step. cbn. by rewrite <- app_assoc.
Qed.

Lemma _register_sections_spec (self : PE) :
  linked_base (PE._register_sections self) = linked_base self ∧
  mapped_base (PE._register_sections self) = mapped_base self ∧
  sections (PE._register_sections self)
    = sections self
      ++ ((λ s, PESection.__init__ s (linked_base self)) <$> pefile.sections (_pe self)).
Proof. by apply _register_sections_fold. Qed.

(** The bases and the sections of a constructed object. *)
Lemma __init___placement (fuel : nat) (pefile_installed : bool) (this : objref)
    (binary : option string) (is_main_bin : bool) (custom_arch : option Arch)
    (pe : pefile.PE) (self : PE) (log : list logrec) :
  PE.__init__ fuel pefile_installed this binary is_main_bin custom_arch pe
    = Ok (self, log) →
  linked_base self = pefile.ImageBase pe ∧
  mapped_base self = pefile.ImageBase pe ∧
  sections self
    = (λ s, PESection.__init__ s (pefile.ImageBase pe)) <$> pefile.sections pe.
Proof.
  unfold PE.__init__. destruct pefile_installed; cbn [negb]; [|done].
  destruct (match custom_arch with Some a => Ok a | None => _ end) as [a| |];
    cbn [pybind]; [|done..].
  match goal with
  | |- context [PE._handle_exports this (PE._handle_imports this ?o)] =>
      set (self0 := o)
  end.
  pose proof (_handle_imports_same_placement this self0) as Himp.
  pose proof (_handle_exports_same_placement this (PE._handle_imports this self0))
    as Hexp.
  set (self2 := PE._handle_exports this (PE._handle_imports this self0)) in *.
  destruct (_handle_relocs_total this self2) as (relocs' & ->). cbn [pybind].
  destruct (PE._register_tls fuel (set_relocs relocs' self2)) as [self4| |] eqn:Htls;
    cbn [pybind]; [|done..].
  apply _register_tls_same_placement in Htls.
  intros [= <- <-].
  destruct (_register_sections_spec self4) as (Hlb & Hmb & Hsec).
  assert (same_placement self0 self4) as (K1 & K2 & K3 & K4).
  { eapply same_placement_trans; [exact Himp|].
    eapply same_placement_trans; [exact Hexp|].
    eapply same_placement_trans; [|exact Htls]. by split_and!. }
  change (linked_base (set_memory _ (set_linking _ ?o))) with (linked_base o).
  change (mapped_base (set_memory _ (set_linking _ ?o))) with (mapped_base o).
  change (sections (set_memory _ (set_linking _ ?o))) with (sections o).
  rewrite Hlb, Hmb, Hsec, K1, K2, K3, K4. by split_and!.
Qed.

End construction.

(** What placement does to the bases and to the sections of an object. *)
Lemma place_spec (base : Z) (obj : PE) :
  mapped_base (place base obj) = base ∧
  linked_base (place base obj) = linked_base obj ∧
  sections (place base obj)
    = map (translate_section (base - linked_base obj)) (sections obj) ∧
  sections_map (place base obj)
    = translate_section (base - linked_base obj) <$> sections_map obj.
Proof. by destruct obj. Qed.



(** The library [lib32], linked at 0x400000 with [.text] at the virtual
    address 0x1000 of the file: its section is at 0x401000 as built, and at
    0x501000 once the object is placed at 0x500000. *)
Example lib32_text_when_placed :
  vaddr <$> sections lib32.obj = [0x401000] ∧
  vaddr <$> sections (place 0x500000 lib32.obj) = [0x501000] ∧
  vaddr <$> sections_map (place 0x500000 lib32.obj) !! ".text" = Some 0x501000.
Proof. split_and!; vm_compute; reflexivity. Qed.


(** * Further properties of the backend *)

(** ** The format probe *)

Section probe.

Implicit Types (l bs : list Z).

Lemma le_value_nonneg bs : byte_string bs → 0 ≤ struct.le_value bs.
Proof.
  unfold byte_string. induction 1 as [|b bs Hb _ IH]; simpl; lia.
Qed.

Lemma le_value_bound bs :
  byte_string bs → 0 ≤ struct.le_value bs < 2 ^ (8 * Z.of_nat (length bs)).
Proof.
  unfold byte_string. induction 1 as [|b bs Hb _ IH].
  - simpl. lia.
  - cbn [struct.le_value length].
    replace (8 * Z.of_nat (S (length bs))) with (8 + 8 * Z.of_nat (length bs)) by lia.
    rewrite Z.pow_add_r by lia. change (2 ^ 8) with 256. nia.
Qed.

(** A window of a prefix is a window of the whole list. *)
Lemma take_drop_take l (k m n : nat) :
  (m + k ≤ n)%nat → take k (drop m (take n l)) = take k (drop m l).
Proof.
  intros Hle. replace n with (m + (n - m))%nat by lia.
  rewrite <- take_drop_commute, take_take. f_equal; lia.
Qed.

(** A window that holds four bytes lies inside the list. *)
Lemma take_4_length l (p : nat) (w : list Z) :
  take 4 (drop p l) = w → length w = 4%nat → (p + 4 ≤ length l)%nat.
Proof.
  intros <-. rewrite length_take, length_drop. lia.
Qed.

End probe.

(** X1.  On a stream of bytes, the probe never raises and always leaves the
    stream at position 0, wherever it stood.  With [d] the bytes from the
    position on, it answers [True] exactly when [d] starts with ['MZ'], is
    longer than 0x40 bytes, and the four bytes ['PE\0\0'] stand at the offset
    that the little-endian word at 0x3c gives, entirely within the first
    0x1000 bytes of [d]. *)
Theorem is_compatible_verdict (stream : Stream.t) :
  byte_string (Stream.data stream) →
  let d := drop (Stream.pos stream) (Stream.data stream) in
  let peptr := struct.le_value (take 4 (drop 0x3c d)) in
  ∃ verdict : bool,
    is_compatible stream = Ok (verdict, Stream.mk (Stream.data stream) 0) ∧
    (verdict = true ↔
       take 2 d = MZ ∧
       (0x40 < length d)%nat ∧
       peptr + 4 ≤ Z.of_nat (length d `min` 0x1000) ∧
       take 4 (drop (Z.to_nat peptr) d) = PE00).
Proof.
  intros Hbytes d peptr.
  assert (0 ≤ peptr) as Hpos.
  { apply le_value_nonneg. unfold byte_string, d.
    by apply Forall_take, Forall_drop, Forall_drop. }
  unfold is_compatible, Stream.read, Stream.seek.
  cbn [Stream.data Stream.pos]. fold d.
  set (n := 0x1000%nat). set (ident := take n d).
  assert (length ident = (length d `min` n)%nat) as Hlen.
  { unfold ident. rewrite length_take. lia. }
  assert (take 2 ident = take 2 d) as Hmz.
  { unfold ident. rewrite take_take. f_equal. }
  rewrite Hmz.
  destruct (decide (take 2 d = MZ ∧ (0x40 < length d)%nat)) as [[Hd Hlong]|Hno].
  - rewrite (bool_decide_eq_true_2 _ Hd).
    rewrite bool_decide_eq_true_2 by (rewrite Hlen; unfold n; lia).
    cbn [andb].
    assert (take (0x40 - 0x3c) (drop 0x3c ident) = take 4 (drop 0x3c d)) as Hptr.
    { unfold ident. apply (take_drop_take d 4 0x3c n). unfold n. lia. }
    rewrite Hptr. unfold struct.unpack_I, struct.unpack_le.
    rewrite bool_decide_eq_true_2
      by (rewrite length_take, length_drop; lia).
    cbn [pybind]. fold peptr.
    destruct (decide (peptr + 4 ≤ Z.of_nat (length d `min` n) ∧
                      take 4 (drop (Z.to_nat peptr) d) = PE00)) as [[Hin Hsig]|Hout].
    + rewrite bool_decide_eq_true_2 by lia.
      rewrite bool_decide_eq_true_2.
      * exists true. by split_and!.
      * unfold ident. rewrite take_drop_take; [done | lia].
    + exists false.
      assert (bool_decide (peptr < Z.of_nat (length ident))
              && bool_decide (take 4 (drop (Z.to_nat peptr) ident) = PE00) = false)
        as ->.
      { apply andb_false_iff.
        destruct (decide (take 4 (drop (Z.to_nat peptr) ident) = PE00)) as [Hsig|Hsig];
          [|right; by apply bool_decide_eq_false_2].
        exfalso. apply Hout.
        pose proof (take_4_length _ _ _ Hsig eq_refl) as Hfit.
        split; [lia|].
        rewrite <- Hsig. unfold ident. symmetry. apply take_drop_take. lia. }
      split; [done|]. split; [done|]. intros (_ & _ & Hin & Hsig).
      exfalso. by apply Hout.
  - exists false.
    assert (bool_decide (take 2 d = MZ) && bool_decide (0x40 < length ident)%nat = false)
      as ->.
    { apply andb_false_iff.
      destruct (decide (take 2 d = MZ)) as [Hd|Hd];
        [|left; by apply bool_decide_eq_false_2].
      right. apply bool_decide_eq_false_2. rewrite Hlen. intros Hlong.
      apply Hno. split; [done | lia]. }
    split; [done|]. split; [done|]. intros (Hd & Hlong & _).
    exfalso. by apply Hno.
Qed.

Lemma is_compatible_verdict_witness :
  ∃ verdict : bool,
    is_compatible mz_stream = Ok (verdict, Stream.mk (Stream.data mz_stream) 0) ∧
    (verdict = true ↔
       take 2 (drop 0 (Stream.data mz_stream)) = MZ ∧
       (0x40 < length (drop 0 (Stream.data mz_stream)))%nat ∧
       struct.le_value (take 4 (drop 0x3c (drop 0 (Stream.data mz_stream)))) + 4
         ≤ Z.of_nat (length (drop 0 (Stream.data mz_stream)) `min` 0x1000) ∧
       take 4 (drop (Z.to_nat
                       (struct.le_value
                          (take 4 (drop 0x3c (drop 0 (Stream.data mz_stream))))))
                    (drop 0 (Stream.data mz_stream))) = PE00).
Proof.
  apply (is_compatible_verdict mz_stream).
  apply (bool_decide_unpack _). vm_compute. exact I.
Defined.

(** The minimal PE file is accepted, from the start of the stream. *)
Example mz_stream_is_compatible :
  is_compatible mz_stream = Ok (true, mz_stream).
Proof. vm_compute. reflexivity. Qed.


(** ** Permission flags *)

(** The test [x & 2^k != 0] reads bit [k] of [x]. *)
Lemma land_pow2_eqb_0 (x k : Z) :
  0 ≤ k → (Z.land x (2 ^ k) =? 0) = negb (Z.testbit x k).
Proof.
  intros Hk. destruct (Z.testbit x k) eqn:Hbit; cbn [negb].
  - assert (Z.land x (2 ^ k) = 2 ^ k) as ->.
    { apply Z.bits_inj'. intros m Hm.
      rewrite Z.land_spec, Z.pow2_bits_eqb by lia.
      destruct (Z.eqb_spec k m) as [<-|Hne]; [by rewrite Hbit | by rewrite andb_false_r]. }
    apply Z.eqb_neq. pose proof (Z.pow_pos_nonneg 2 k). lia.
  - assert (Z.land x (2 ^ k) = 0) as ->; [|done].
    apply Z.bits_inj'. intros m Hm.
    rewrite Z.land_spec, Z.pow2_bits_eqb, Z.bits_0 by lia.
    destruct (Z.eqb_spec k m) as [<-|Hne]; [by rewrite Hbit | by rewrite andb_false_r].
Qed.

(** X2.  The permissions of a section are three bits of the characteristics
    of its raw record: bit 30 says readable, bit 31 writable, bit 29
    executable; the other bits and the remap offset have no part in them. *)
Theorem section_permissions_are_characteristics_bits
    (pe_section : pefile.section_struct) (remap_offset : Z) :
  let section := PESection.__init__ pe_section remap_offset in
  PESection.is_readable section = Z.testbit (pefile.Characteristics pe_section) 30 ∧
  PESection.is_writable section = Z.testbit (pefile.Characteristics pe_section) 31 ∧
  PESection.is_executable section = Z.testbit (pefile.Characteristics pe_section) 29.
Proof.
  unfold PESection.is_readable, PESection.is_writable, PESection.is_executable.
  cbn [PESection.__init__ characteristics].
  change 0x40000000 with (2 ^ 30). change 0x80000000 with (2 ^ 31).
  change 0x20000000 with (2 ^ 29).
  rewrite !land_pow2_eqb_0 by lia. by rewrite !negb_involutive.
Qed.


(** ** What construction builds *)

Section construction_steps.

Variable this : objref.

Lemma insert_all_app {V : Type} (m : gmap string V) (l1 l2 : list (string * V)) :
  insert_all m (l1 ++ l2) = insert_all (insert_all m l1) l2.
Proof. unfold insert_all. by rewrite foldl_app. Qed.

(** The inner loop of [_handle_imports], over the imports of one entry. *)
Lemma _handle_import_fold (entry : pefile.import_desc)
    (imps : list pefile.import_data) (self : PE) :
  foldl (PE._handle_import this entry) self imps
    = set_relocs
        (relocs self ++ map (import_reloc this (arch self) entry) imps)
        (set_imports
           (insert_all (imports self)
              (map (λ imp, (import_name entry imp,
                            import_reloc this (arch self) entry imp)) imps))
           self).
Proof.
  revert self; induction imps as [|imp imps IH]; intros self.
  - destruct self. unfold set_relocs, set_imports, insert_all. cbn.
    by rewrite app_nil_r.
  - cbn [foldl]. rewrite IH. destruct self.
    unfold set_relocs, set_imports, insert_all, PE._handle_import. cbn.
    by rewrite <- app_assoc.
Qed.

Lemma _handle_imports_spec (self : PE) :
  let pairs :=
    import_relocs this (arch self)
                  (table_of (pefile.DIRECTORY_ENTRY_IMPORT (_pe self))) in
  PE._handle_imports this self
    = set_relocs (relocs self ++ pairs.*2)
                 (set_imports (insert_all (imports self) pairs) self).
Proof.
  unfold PE._handle_imports.
  destruct (pefile.DIRECTORY_ENTRY_IMPORT (_pe self)) as [table|]; cbn [table_of].
  - clear. revert self; induction table as [|entry table IH]; intros self.
    + destruct self. unfold set_relocs, set_imports, insert_all. cbn.
      by rewrite app_nil_r.
    + cbn [foldl]. rewrite IH, _handle_import_fold. destruct self.
      unfold set_relocs, set_imports, import_relocs. cbn.
      f_equal.
      * symmetry. apply (insert_all_app imports0).
      * rewrite fmap_app, <- app_assoc. do 2 f_equal.
        by rewrite <- list_fmap_compose.
  - destruct self. unfold set_relocs, set_imports, insert_all. cbn.
    by rewrite app_nil_r.
Qed.

Lemma _handle_exports_spec (self : PE) :
  PE._handle_exports this self
    = set_exports
        (insert_all (_exports self)
           (map (λ exp, (pefile.exp_name exp, export_symbol this (arch self) exp))
                (table_of (pefile.DIRECTORY_ENTRY_EXPORT (_pe self)))))
        self.
Proof.
  unfold PE._handle_exports.
  destruct (pefile.DIRECTORY_ENTRY_EXPORT (_pe self)) as [symbols|]; cbn [table_of].
  - clear. revert self; induction symbols as [|exp symbols IH]; intros self.
    + by destruct self.
    + cbn [foldl]. rewrite IH. by destruct self.
  - by destruct self.
Qed.

Lemma _handle_relocs_spec (self : PE) :
  PE._handle_relocs this self
    = Ok (set_relocs
            (relocs self
             ++ flat_map (λ b, recorded_relocs this (pefile.entries b))
                         (table_of (pefile.DIRECTORY_ENTRY_BASERELOC (_pe self))))
            self,
          []).
Proof.
  unfold PE._handle_relocs.
  destruct (pefile.DIRECTORY_ENTRY_BASERELOC (_pe self)) as [table|]; cbn [table_of].
  - by rewrite _handle_relocs_blocks_spec.
  - destruct self. unfold set_relocs. cbn. by rewrite app_nil_r.
Qed.

Lemma _register_sections_exact (self : PE) :
  let wrap := λ s, PESection.__init__ s (linked_base self) in
  PE._register_sections self
    = set_sections_map
        (insert_all (sections_map self)
           (map (λ s, (pefile.Name s, wrap s)) (pefile.sections (_pe self))))
        (set_sections (sections self ++ map wrap (pefile.sections (_pe self))) self).
Proof.
  unfold PE._register_sections. generalize (pefile.sections (_pe self)) as l.
  intros l. revert self; induction l as [|s l IH]; intros self.
  - destruct self. unfold set_sections_map, set_sections, insert_all. cbn.
    by rewrite app_nil_r.
  - cbn [foldl]. rewrite IH. destruct self.
    unfold set_sections_map, set_sections, insert_all. cbn.
    by rewrite <- app_assoc.
Qed.

End construction_steps.

(** The object that [PE.__init__] returns, attribute by attribute. *)
Lemma __init___built (fuel : nat) (pefile_installed : bool) (this : objref)
    (bin : option string) (main : bool) (custom_arch : option Arch)
    (pe : pefile.PE) (self : PE) (log : list logrec) :
  PE.__init__ fuel pefile_installed this bin main custom_arch pe = Ok (self, log) →
  ∃ a : Arch,
    match custom_arch with Some a' => Ok a' | None => arch_from_id (pefile.Machine pe) end
      = Ok a ∧
    pefile_installed = true ∧
    log = [] ∧
    arch self = a ∧
    _pe self = pe ∧
    linked_base self = pefile.ImageBase pe ∧
    deps self = map pefile.dll (table_of (pefile.DIRECTORY_ENTRY_IMPORT pe)) ∧
    linking self = match deps self with [] => "static" | _ => "dynamic" end ∧
    _exports self
      = insert_all ∅
          (map (λ exp, (pefile.exp_name exp, export_symbol this a exp))
               (table_of (pefile.DIRECTORY_ENTRY_EXPORT pe))) ∧
    imports self
      = insert_all ∅
          (import_relocs this a (table_of (pefile.DIRECTORY_ENTRY_IMPORT pe))) ∧
    relocs self
      = (import_relocs this a (table_of (pefile.DIRECTORY_ENTRY_IMPORT pe))).*2
        ++ flat_map (λ b, recorded_relocs this (pefile.entries b))
                    (table_of (pefile.DIRECTORY_ENTRY_BASERELOC pe)) ∧
    sections self
      = map (λ s, PESection.__init__ s (pefile.ImageBase pe)) (pefile.sections pe) ∧
    sections_map self
      = insert_all ∅
          (map (λ s, (pefile.Name s, PESection.__init__ s (pefile.ImageBase pe)))
               (pefile.sections pe)) ∧
    tls_used self = bool_decide (is_Some (pefile.DIRECTORY_ENTRY_TLS pe)) ∧
    memory self = Clemory.add_backer 0 (pefile.get_memory_mapped_image pe) ∅.
Proof.
  unfold PE.__init__. destruct pefile_installed; cbn [negb]; [|done].
  destruct (match custom_arch with Some a => Ok a | None => _ end) as [a| |];
    cbn [pybind]; [|done..].
  match goal with
  | |- context [PE._handle_exports this (PE._handle_imports this ?o)] =>
      set (self0 := o)
  end.
  pose proof (_handle_imports_spec this self0) as Himp. cbv zeta in Himp.
  rewrite Himp. clear Himp.
  match goal with
  | |- context [PE._handle_exports this ?o] =>
      rewrite (_handle_exports_spec this o)
  end.
  match goal with
  | |- context [PE._handle_relocs this ?o] =>
      rewrite (_handle_relocs_spec this o)
  end.
  cbn [pybind]. unfold PE._register_tls.
  match goal with
  | |- context [pefile.DIRECTORY_ENTRY_TLS (_pe ?o)] =>
      change (_pe o) with pe
  end.
  destruct (pefile.DIRECTORY_ENTRY_TLS pe) as [tls|].
  - destruct (PE._register_tls_callbacks _ _ _) as [cbs| |]; cbn [pybind]; [|done..].
    rewrite _register_sections_exact. cbv zeta.
    intros [= <- <-]. exists a. subst self0. cbn.
    split_and!; try done.
    by destruct (pefile.DIRECTORY_ENTRY_IMPORT pe).
  - cbn [pybind]. rewrite _register_sections_exact. cbv zeta.
    intros [= <- <-]. exists a. subst self0. cbn.
    split_and!; try done.
    by destruct (pefile.DIRECTORY_ENTRY_IMPORT pe).
Qed.


(** ** Dictionaries filled in table order *)

Section dictionaries.

Context {A V : Type}.
Implicit Types (m : gmap string V) (k : string).

(** After filing [val x] under [key x] for each [x] of a list, in order, a
    key holds the value of the last [x] with that key. *)
Lemma insert_all_map_lookup (key : A → string) (val : A → V) m (l : list A) k :
  insert_all m (map (λ x, (key x, val x)) l) !! k
    = match last (filter (λ x, key x = k) l) with
      | Some x => Some (val x)
      | None => m !! k
      end.
Proof.
  revert m; induction l as [|x l IH]; intros m; [done|].
  change (insert_all m (map (λ x, (key x, val x)) (x :: l)))
    with (insert_all (<[key x := val x]> m) (map (λ x, (key x, val x)) l)).
  rewrite IH, filter_cons. case_decide as Hk.
  - rewrite last_cons. destruct (last (filter _ l)); [done|].
    subst k. by rewrite lookup_insert_eq.
  - destruct (last (filter _ l)); [done|]. by rewrite lookup_insert_ne.
Qed.

Lemma last_filter_map {B : Type} (f : A → B) (P : B → Prop)
    `{!∀ y, Decision (P y)} (l : list A) :
  last (filter P (map f l)) = f <$> last (filter (λ x, P (f x)) l).
Proof.
  induction l as [|x l IH]; [done|].
  cbn [map]. rewrite !filter_cons. case_decide; [|done].
  rewrite !last_cons, IH. by destruct (last (filter _ l)).
Qed.

End dictionaries.

Lemma map_pair_eta {K V : Type} (l : list (K * V)) :
  map (λ x, (x.1, x.2)) l = l.
Proof. induction l as [|[k v] l IH]; [done|]. cbn. by rewrite IH. Qed.

(** What [insert_all] holds comes from the list. *)
Lemma insert_all_lookup_Some {V : Type} (l : list (string * V)) (k : string) (v : V) :
  insert_all ∅ l !! k = Some v → (k, v) ∈ l.
Proof.
  intros Hk.
  pose proof (insert_all_map_lookup (V:=V) fst snd ∅ l k) as H.
  rewrite map_pair_eta in H.
  rewrite Hk, lookup_empty in H.
  destruct (last (filter _ l)) as [[k' v']|] eqn:Hlast; [|done].
  injection H as ->.
  apply last_Some_elem_of, list_elem_of_filter in Hlast as [Hkey Hin].
  simpl in Hkey. by subst k'.
Qed.

Lemma insert_all_lookup_is_Some {V : Type} (l : list (string * V)) (k : string) (v : V) :
  (k, v) ∈ l → is_Some (insert_all ∅ l !! k).
Proof.
  intros Hin.
  pose proof (insert_all_map_lookup (V:=V) fst snd ∅ l k) as H.
  rewrite map_pair_eta in H.
  rewrite H.
  destruct (last (filter (λ x, x.1 = k) l)) as [x|] eqn:Hlast; [by eexists|].
  apply last_None in Hlast.
  assert ((k, v) ∈ filter (λ x : string * V, x.1 = k) l) as Habs
    by (by apply list_elem_of_filter).
  rewrite Hlast in Habs. by apply elem_of_nil in Habs.
Qed.


(** ** Exports, imports and sections of a constructed object *)

Example app_obj_is_built :
  PE.__init__ 0 true app.ref (Some "/opt/win/app.exe") true None app.file
    = Ok (app.obj, []).
Proof. vm_compute. reflexivity. Qed.

(** X3.  [supports_nx] of a constructed object is bit 8 of the
    [DllCharacteristics] of its file. *)
Theorem supports_nx_is_bit_8 (fuel : nat) (pefile_installed : bool)
    (this : objref) (bin : option string) (main : bool)
    (custom_arch : option Arch) (pe : pefile.PE) (self : PE) (log : list logrec) :
  PE.__init__ fuel pefile_installed this bin main custom_arch pe = Ok (self, log) →
  supports_nx self = Z.testbit (pefile.DllCharacteristics pe) 8.
Proof.
  intros Hbuilt. apply __init___built in Hbuilt as (a & _ & _ & _ & _ & Hpe & _).
  unfold supports_nx. rewrite Hpe. change 0x100 with (2 ^ 8).
  rewrite land_pow2_eqb_0 by lia. by rewrite negb_involutive.
Qed.

Lemma supports_nx_is_bit_8_witness :
  supports_nx app.obj = Z.testbit (pefile.DllCharacteristics app.file) 8.
Proof.
  apply (supports_nx_is_bit_8 0 true app.ref (Some "/opt/win/app.exe") true None
                              app.file app.obj []).
  vm_compute. reflexivity.
Defined.

(** X4.  [get_symbol] on a constructed object finds exactly the names of the
    export table: for a name that the table holds, the symbol of the last
    entry of that name, owned by the object, at the entry's address, marked
    as an export and not as an import; for any other name, the names of
    imports among them, nothing. *)
Theorem get_symbol_finds_the_last_export (fuel : nat) (pefile_installed : bool)
    (this : objref) (bin : option string) (main : bool)
    (custom_arch : option Arch) (pe : pefile.PE) (self : PE) (log : list logrec) :
  PE.__init__ fuel pefile_installed this bin main custom_arch pe = Ok (self, log) →
  ∀ nm : string,
    get_symbol self nm
      = (λ exp, mk_WinSymbol this nm (pefile.exp_address exp) (bytes (arch self))
                             TYPE_FUNCTION false true)
        <$> last (filter (λ exp, pefile.exp_name exp = nm)
                         (table_of (pefile.DIRECTORY_ENTRY_EXPORT pe))).
Proof.
  intros Hbuilt nm.
  apply __init___built in Hbuilt as (a & _ & _ & _ & Ha & _ & _ & _ & _ & Hexp & _).
  unfold get_symbol. rewrite Hexp, insert_all_map_lookup, lookup_empty, Ha.
  destruct (last (filter _ _)) as [exp|] eqn:Hlast; [|done].
  apply last_Some_elem_of, list_elem_of_filter in Hlast as [<- _]. done.
Qed.

Lemma get_symbol_finds_the_last_export_witness :
  get_symbol app.obj "run"
    = Some (mk_WinSymbol app.ref "run" 0x1300 4 TYPE_FUNCTION false true) ∧
  get_symbol app.obj "foo" = None.
Proof.
  pose proof (get_symbol_finds_the_last_export
                0 true app.ref (Some "/opt/win/app.exe") true None
                app.file app.obj [] ltac:(vm_compute; reflexivity)) as H.
  split; [exact (H "run") | exact (H "foo")].
Defined.

(** X16.  [sections_map] of a constructed object maps a name to the last
    section of [sections] that has it, and only names of sections are keys:
    of two sections of one name the map knows the later one only. *)
Theorem sections_map_holds_the_last_of_a_name (fuel : nat)
    (pefile_installed : bool) (this : objref) (bin : option string) (main : bool)
    (custom_arch : option Arch) (pe : pefile.PE) (self : PE) (log : list logrec) :
  PE.__init__ fuel pefile_installed this bin main custom_arch pe = Ok (self, log) →
  ∀ nm : string,
    sections_map self !! nm = last (filter (λ sec, name sec = nm) (sections self)).
Proof.
  intros Hbuilt nm.
  apply __init___built in Hbuilt
    as (a & _ & _ & _ & _ & _ & _ & _ & _ & _ & _ & _ & Hsec & Hmap & _).
  rewrite Hmap, Hsec, insert_all_map_lookup, lookup_empty.
  rewrite (last_filter_map _ (λ sec, name sec = nm)). cbn [PESection.__init__ name].
  by destruct (last (filter _ _)).
Qed.

Lemma sections_map_holds_the_last_of_a_name_witness :
  sections_map app.obj !! ".data" = Some (PESection.__init__ app.data2 0x400000) ∧
  sections_map app.obj !! ".rsrc" = None.
Proof.
  pose proof (sections_map_holds_the_last_of_a_name
                0 true app.ref (Some "/opt/win/app.exe") true None
                app.file app.obj [] ltac:(vm_compute; reflexivity)) as H.
  split; [exact (H ".data") | exact (H ".rsrc")].
Defined.

Section table_contents.

Variable this : objref.

(** Where the pairs of [import_relocs] come from. *)
Lemma elem_of_import_relocs (a : Arch) (table : list pefile.import_desc)
    (k : string) (r : WinReloc) :
  (k, r) ∈ import_relocs this a table ↔
  ∃ entry imp, entry ∈ table ∧ imp ∈ pefile.imports entry ∧
               k = import_name entry imp ∧ r = import_reloc this a entry imp.
Proof.
  unfold import_relocs. rewrite list_elem_of_In, in_flat_map. split.
  - intros (entry & Hentry & (imp & Heq & Himp)%in_map_iff).
    injection Heq as <- <-. exists entry, imp.
    by rewrite !list_elem_of_In.
  - intros (entry & imp & Hentry & Himp & -> & ->).
    exists entry. rewrite <- list_elem_of_In. split; [done|].
    apply in_map_iff. exists imp. by rewrite <- list_elem_of_In.
Qed.

(** Where the relocations of [recorded_relocs] come from. *)
Lemma elem_of_recorded_relocs (n : nat) (entries : list pefile.reloc_entry)
    (r : WinReloc) :
  (length entries ≤ n)%nat →
  r ∈ recorded_relocs this entries →
  ∃ reloc_data, reloc_data ∈ entries ∧
    (r = base_reloc_of this reloc_data ∨
     (pefile.type reloc_data = pefile.IMAGE_REL_BASED_HIGHADJ ∧
      r = WinReloc.__init__ this None (pefile.rva reloc_data) None
                            (Some (pefile.type reloc_data))
                            (Some (pefile.rva reloc_data)))).
Proof.
  revert entries; induction n as [|n IH]; intros entries Hlen Hr.
  - destruct entries; [by apply elem_of_nil in Hr | simpl in Hlen; lia].
  - destruct entries as [|e entries]; [by apply elem_of_nil in Hr|].
    cbn [recorded_relocs] in Hr. case_bool_decide as Hty.
    + apply elem_of_cons in Hr as [->|Hr].
      * exists e. split; [constructor | by right].
      * destruct entries as [|e' entries]; [by apply elem_of_nil in Hr|].
        destruct (IH entries) as (e0 & Hin & He0); [simpl in Hlen; lia | done |].
        exists e0. split; [by do 2 constructor | done].
    + apply elem_of_cons in Hr as [->|Hr].
      * exists e. split; [constructor | by left].
      * destruct (IH entries) as (e0 & Hin & He0); [simpl in Hlen; lia | done |].
        exists e0. split; [by constructor | done].
Qed.

End table_contents.

(** X5.  Every relocation of a constructed object belongs to the object and
    is unresolved, and it is of one of two kinds.  Either it is an import: it
    has a symbol, marked as an import, at address 0, of the same object; it
    is bound to a provider that is among the dependencies of the object; it
    has no type.  Or it is a base relocation: it has no symbol and no
    provider, and it has a type; if it has a [next_rva], the type is
    HIGHADJ. *)
Theorem constructed_relocations_are_of_two_kinds (fuel : nat)
    (pefile_installed : bool) (this : objref) (bin : option string) (main : bool)
    (custom_arch : option Arch) (pe : pefile.PE) (self : PE) (log : list logrec) :
  PE.__init__ fuel pefile_installed this bin main custom_arch pe = Ok (self, log) →
  ∀ r : WinReloc,
    r ∈ relocs self →
    owner_obj r = this ∧ resolved r = false ∧ resolvedby r = None ∧
    ((∃ (s : WinSymbol) (dll : string),
        symbol r = Some s ∧ is_import s = true ∧ is_export s = false ∧
        sym_addr s = 0 ∧ sym_owner_obj s = this ∧
        resolvewith r = Some dll ∧ dll ∈ deps self ∧
        reloc_type r = None ∧ next_rva r = None) ∨
     (symbol r = None ∧ resolvewith r = None ∧
      ∃ t : Z, reloc_type r = Some t ∧
               (next_rva r = None ∨
                (t = pefile.IMAGE_REL_BASED_HIGHADJ ∧ next_rva r = Some (addr r))))).
Proof.
  intros Hbuilt r Hr.
  apply __init___built in Hbuilt
    as (a & _ & _ & _ & _ & _ & _ & Hdeps & _ & _ & _ & Hrel & _).
  rewrite Hrel in Hr. apply elem_of_app in Hr as [Hr|Hr].
  - apply list_elem_of_fmap in Hr as ([k r'] & -> & Hin).
    apply elem_of_import_relocs in Hin as (entry & imp & Hentry & Himp & -> & ->).
    split_and!; [done..|]. left.
    eexists _, (pefile.dll entry). split_and!; try done.
    rewrite Hdeps. apply list_elem_of_fmap. by exists entry.
  - apply list_elem_of_In, in_flat_map in Hr as (b & _ & Hr%list_elem_of_In).
    apply (elem_of_recorded_relocs this _ _ _ (le_n _)) in Hr
      as (e & _ & [-> | [Hty ->]]).
    + split_and!; [done..|]. right. split_and!; [done..|].
      exists (pefile.type e). split; [done | by left].
    + split_and!; [done..|]. right. split_and!; [done..|].
      exists (pefile.type e). split; [done | by right].
Qed.

Lemma constructed_relocations_are_of_two_kinds_witness :
  let r := base_reloc_of app.ref
             (pefile.mk_reloc_entry 0x1004 pefile.IMAGE_REL_BASED_HIGHLOW) in
  owner_obj r = app.ref ∧ resolved r = false ∧ resolvedby r = None ∧
  ((∃ (s : WinSymbol) (dll : string),
      symbol r = Some s ∧ is_import s = true ∧ is_export s = false ∧
      sym_addr s = 0 ∧ sym_owner_obj s = app.ref ∧
      resolvewith r = Some dll ∧ dll ∈ deps app.obj ∧
      reloc_type r = None ∧ next_rva r = None) ∨
   (symbol r = None ∧ resolvewith r = None ∧
    ∃ t : Z, reloc_type r = Some t ∧
             (next_rva r = None ∨
              (t = pefile.IMAGE_REL_BASED_HIGHADJ ∧ next_rva r = Some (addr r))))).
Proof.
  apply (constructed_relocations_are_of_two_kinds
           0 true app.ref (Some "/opt/win/app.exe") true None app.file app.obj []).
  - vm_compute. reflexivity.
  - vm_compute. do 3 apply list_elem_of_further. apply list_elem_of_here.
Defined.

(** X6.  In a constructed object the dictionary [imports] and the list
    [relocs] agree: every entry of [imports] is one of the relocations of the
    object and is filed under the name of its symbol, and every relocation
    that has a symbol has that symbol's name as a key of [imports]. *)
Theorem imports_are_the_relocations_with_a_symbol (fuel : nat)
    (pefile_installed : bool) (this : objref) (bin : option string) (main : bool)
    (custom_arch : option Arch) (pe : pefile.PE) (self : PE) (log : list logrec) :
  PE.__init__ fuel pefile_installed this bin main custom_arch pe = Ok (self, log) →
  (∀ (nm : string) (r : WinReloc),
     PE._get_jmprel self !! nm = Some r →
     imports self !! nm = Some r ∧ r ∈ relocs self ∧
     ∃ s : WinSymbol, symbol r = Some s ∧ sym_name s = nm) ∧
  (∀ (r : WinReloc) (s : WinSymbol),
     r ∈ relocs self → symbol r = Some s → is_Some (imports self !! sym_name s)).
Proof.
  intros Hbuilt.
  apply __init___built in Hbuilt
    as (a & _ & _ & _ & _ & _ & _ & _ & _ & _ & Himp & Hrel & _).
  split.
  - intros nm r Hget. unfold PE._get_jmprel in Hget. split; [done|].
    rewrite Himp in Hget. apply insert_all_lookup_Some in Hget.
    split.
    + rewrite Hrel. apply elem_of_app. left.
      apply list_elem_of_fmap. by exists (nm, r).
    + apply elem_of_import_relocs in Hget as (entry & imp & _ & _ & -> & ->).
      by eexists.
  - intros r s Hr Hs. rewrite Hrel in Hr. apply elem_of_app in Hr as [Hr|Hr].
    + apply list_elem_of_fmap in Hr as ([k r'] & -> & Hin).
      pose proof Hin as Hin'.
      apply elem_of_import_relocs in Hin' as (entry & imp & _ & _ & -> & ->).
      injection Hs as <-. rewrite Himp.
      by eapply insert_all_lookup_is_Some.
    + apply list_elem_of_In, in_flat_map in Hr as (b & _ & Hr%list_elem_of_In).
      apply (elem_of_recorded_relocs this _ _ _ (le_n _)) in Hr
        as (e & _ & [-> | [_ ->]]); done.
Qed.

Lemma imports_are_the_relocations_with_a_symbol_witness :
  (∀ (nm : string) (r : WinReloc),
     PE._get_jmprel app.obj !! nm = Some r →
     imports app.obj !! nm = Some r ∧ r ∈ relocs app.obj ∧
     ∃ s : WinSymbol, symbol r = Some s ∧ sym_name s = nm) ∧
  (∀ (r : WinReloc) (s : WinSymbol),
     r ∈ relocs app.obj → symbol r = Some s →
     is_Some (imports app.obj !! sym_name s)).
Proof.
  apply (imports_are_the_relocations_with_a_symbol
           0 true app.ref (Some "/opt/win/app.exe") true None app.file app.obj []).
  vm_compute. reflexivity.
Defined.

(** An import by ordinal is filed under the name made of the dependency and
    the ordinal. *)
Example import_by_ordinal_name :
  ∃ r, imports app.obj !! "lib.dll.ordinal_import.7" = Some r ∧ addr r = 0x2004.
Proof. eexists. split; [vm_compute; reflexivity | reflexivity]. Qed.

(** X7.  The dependencies of a constructed object are the names of the
    descriptors of its import directory, in the order of the directory, and
    the object is linked ["dynamic"] exactly when there is such a descriptor,
    ["static"] when the directory is absent or empty. *)
Theorem linking_is_dynamic_with_dependencies (fuel : nat)
    (pefile_installed : bool) (this : objref) (bin : option string) (main : bool)
    (custom_arch : option Arch) (pe : pefile.PE) (self : PE) (log : list logrec) :
  PE.__init__ fuel pefile_installed this bin main custom_arch pe = Ok (self, log) →
  match pefile.DIRECTORY_ENTRY_IMPORT pe with
  | Some (entry :: table) =>
      deps self = pefile.dll entry :: map pefile.dll table ∧
      linking self = "dynamic"
  | _ => deps self = [] ∧ linking self = "static"
  end.
Proof.
  intros Hbuilt.
  apply __init___built in Hbuilt as (a & _ & _ & _ & _ & _ & _ & Hdeps & Hlink & _).
  rewrite Hlink, Hdeps.
  by destruct (pefile.DIRECTORY_ENTRY_IMPORT pe) as [[|entry table]|].
Qed.

Lemma linking_is_dynamic_with_dependencies_witness :
  deps app.obj = ["lib.dll"; "other.dll"] ∧ linking app.obj = "dynamic".
Proof.
  apply (linking_is_dynamic_with_dependencies
           0 true app.ref (Some "/opt/win/app.exe") true None app.file app.obj []).
  vm_compute. reflexivity.
Defined.


(** ** How construction can end *)

(** The loop of the TLS scan returns or goes on; it raises nothing. *)
Lemma _register_tls_callbacks_while_no_raise (fuel : nat) (pe : pefile.PE)
    (callback : option Z) (callback_rva : Z) (callbacks : list (option Z)) (e : exn) :
  PE._register_tls_callbacks_while fuel pe callback callback_rva callbacks ≠ Raise e.
Proof.
  revert callback callback_rva callbacks.
  induction fuel as [|fuel IH]; intros callback callback_rva callbacks; [done|].
  cbn [PE._register_tls_callbacks_while]. case_bool_decide; [apply IH | done].
Qed.

(** X15.  Construction with an architecture supplied by the caller: without
    the parsing library it raises [CLEError]; with it, it raises nothing,
    whatever the machine type and the tables of the file.  It returns the
    object, with that architecture and an empty log, or, and only for a file
    with a TLS directory, it is still scanning the callback array when the
    fuel is spent. *)
Theorem construction_with_an_architecture_never_raises (fuel : nat)
    (this : objref) (bin : option string) (main : bool) (a : Arch)
    (pe : pefile.PE) :
  PE.__init__ fuel false this bin main (Some a) pe = Raise CLEError ∧
  match pefile.DIRECTORY_ENTRY_TLS pe with
  | None =>
      ∃ self : PE,
        PE.__init__ fuel true this bin main (Some a) pe = Ok (self, []) ∧
        arch self = a
  | Some _ =>
      (∃ self : PE,
         PE.__init__ fuel true this bin main (Some a) pe = Ok (self, []) ∧
         arch self = a) ∨
      PE.__init__ fuel true this bin main (Some a) pe = Diverge
  end.
Proof.
  split; [done|].
  unfold PE.__init__. cbn [negb pybind].
  match goal with
  | |- context [PE._handle_exports this (PE._handle_imports this ?o)] =>
      set (self0 := o)
  end.
  pose proof (_handle_imports_spec this self0) as Himp. cbv zeta in Himp.
  rewrite Himp. clear Himp.
  match goal with
  | |- context [PE._handle_exports this ?o] =>
      rewrite (_handle_exports_spec this o)
  end.
  match goal with
  | |- context [PE._handle_relocs this ?o] =>
      rewrite (_handle_relocs_spec this o)
  end.
  cbn [pybind]. unfold PE._register_tls.
  match goal with
  | |- context [pefile.DIRECTORY_ENTRY_TLS (_pe ?o)] =>
      change (_pe o) with pe
  end.
  destruct (pefile.DIRECTORY_ENTRY_TLS pe) as [tls|].
  - destruct (PE._register_tls_callbacks _ _ _) as [cbs|e|] eqn:Hscan;
      cbn [pybind].
    + left. eexists. split; [reflexivity|]. rewrite _register_sections_exact. reflexivity.
    + by apply _register_tls_callbacks_while_no_raise in Hscan.
    + by right.
  - cbn [pybind]. eexists. split; [reflexivity|]. rewrite _register_sections_exact. reflexivity.
Qed.


(** ** The TLS scan, whatever the width of the pointers *)

Section tls_scan_general.

Variable pe : pefile.PE.

(** If the loop returns, what it appended are the words read from its
    position on, none of them zero, and the word behind them reads as zero. *)
Lemma _register_tls_callbacks_while_sound (fuel : nat) :
  ∀ (rva : Z) (seen out : list (option Z)),
    PE._register_tls_callbacks_while fuel pe (pefile.get_dword_at_rva pe rva) rva seen
      = Ok out →
    ∃ cbs : list (option Z),
      out = seen ++ cbs ∧ (length cbs < fuel)%nat ∧
      (∀ (i : nat) (c : option Z), cbs !! i = Some c →
         pefile.get_dword_at_rva pe (rva + 4 * Z.of_nat i) = c ∧ c ≠ Some 0) ∧
      pefile.get_dword_at_rva pe (rva + 4 * Z.of_nat (length cbs)) = Some 0.
Proof.
  induction fuel as [|fuel IH]; intros rva seen out; [done|].
  cbn [PE._register_tls_callbacks_while]. case_bool_decide as Hcb.
  - intros (cbs & -> & Hlen & Hwords & Hzero)%IH.
    exists (pefile.get_dword_at_rva pe rva :: cbs).
    split_and!.
    + by rewrite <- app_assoc.
    + simpl. lia.
    + intros [|i] c Hi.
      * injection Hi as <-. split; [f_equal; lia | done].
      * destruct (Hwords i c Hi) as [<- Hc]. split; [f_equal; lia | done].
    + rewrite <- Hzero. f_equal. simpl. lia.
  - intros [= <-]. exists []. split_and!.
    + by rewrite app_nil_r.
    + simpl. lia.
    + intros i c Hi. by rewrite lookup_nil in Hi.
    + simpl. rewrite Z.add_0_r. by destruct (decide (pefile.get_dword_at_rva pe rva = Some 0)).
Qed.

(** The other way round, with fuel for one turn per word and the exit. *)
Lemma _register_tls_callbacks_while_complete (cbs : list (option Z)) :
  ∀ (fuel : nat) (rva : Z) (seen : list (option Z)),
    (length cbs < fuel)%nat →
    (∀ (i : nat) (c : option Z), cbs !! i = Some c →
       pefile.get_dword_at_rva pe (rva + 4 * Z.of_nat i) = c ∧ c ≠ Some 0) →
    pefile.get_dword_at_rva pe (rva + 4 * Z.of_nat (length cbs)) = Some 0 →
    PE._register_tls_callbacks_while fuel pe (pefile.get_dword_at_rva pe rva) rva seen
      = Ok (seen ++ cbs).
Proof.
  induction cbs as [|c cbs IH]; intros fuel rva seen Hfuel Hwords Hzero;
    (destruct fuel as [|fuel]; [simpl in Hfuel; lia|]);
    cbn [PE._register_tls_callbacks_while].
  - simpl in Hzero. rewrite Z.add_0_r in Hzero. rewrite Hzero.
    rewrite bool_decide_eq_false_2 by (intros H; by apply H).
    by rewrite app_nil_r.
  - destruct (Hwords 0%nat c eq_refl) as [Hread Hc].
    simpl in Hread. rewrite Z.add_0_r in Hread. rewrite Hread.
    rewrite bool_decide_eq_true_2 by done.
    rewrite IH.
    + by rewrite <- app_assoc.
    + simpl in Hfuel. lia.
    + intros i c' Hi. destruct (Hwords (S i) c' Hi) as [Hread' Hc'].
      split; [|done]. rewrite <- Hread'. f_equal; lia.
    + rewrite <- Hzero. f_equal; simpl; lia.
Qed.

(** While no word reads as zero the loop goes on. *)
Lemma _register_tls_callbacks_while_diverges (fuel : nat) :
  ∀ (rva : Z) (seen : list (option Z)),
    (∀ i : nat, pefile.get_dword_at_rva pe (rva + 4 * Z.of_nat i) ≠ Some 0) →
    PE._register_tls_callbacks_while fuel pe (pefile.get_dword_at_rva pe rva) rva seen
      = Diverge.
Proof.
  induction fuel as [|fuel IH]; intros rva seen Hwords; [done|].
  cbn [PE._register_tls_callbacks_while].
  rewrite bool_decide_eq_true_2.
  - apply IH. intros i. specialize (Hwords (S i)).
    by replace (rva + 4 + 4 * Z.of_nat i) with (rva + 4 * Z.of_nat (S i)) by lia.
  - specialize (Hwords 0%nat). simpl in Hwords. by rewrite Z.add_0_r in Hwords.
Qed.

(** Behind the end of the image nothing can be read. *)
Lemma get_dword_at_rva_beyond (rva : Z) :
  Z.of_nat (length (pefile.memory_mapped_image pe)) ≤ rva →
  pefile.get_dword_at_rva pe rva = None.
Proof.
  intros Hrva. unfold pefile.get_dword_at_rva.
  case_bool_decide; [|done].
  rewrite drop_ge by lia. by rewrite bool_decide_eq_false_2.
Qed.

End tls_scan_general.

(** X8.  Whenever the TLS scan returns, for an image of any pointer width,
    its result is the sequence of 4-byte words read at [addr - linked_base],
    four bytes apart, up to the first word that reads as zero: no word of the
    result is zero, the word behind the last one is, one more unit of fuel
    than there are words was enough, and more fuel gives the same result. *)
Theorem tls_scan_returns_the_words_before_the_first_zero (fuel : nat) (self : PE)
    (addr : Z) (callbacks : list (option Z)) :
  PE._register_tls_callbacks fuel self addr = Ok callbacks →
  let rva := addr - linked_base self in
  (∀ (i : nat) (c : option Z), callbacks !! i = Some c →
     pefile.get_dword_at_rva (_pe self) (rva + 4 * Z.of_nat i) = c ∧ c ≠ Some 0) ∧
  pefile.get_dword_at_rva (_pe self) (rva + 4 * Z.of_nat (length callbacks)) = Some 0 ∧
  (length callbacks < fuel)%nat ∧
  (∀ fuel' : nat, (length callbacks < fuel')%nat →
     PE._register_tls_callbacks fuel' self addr = Ok callbacks).
Proof.
  unfold PE._register_tls_callbacks, AT.to_rva, AT.from_lva. cbn [AT._rva].
  intros Hrun. apply _register_tls_callbacks_while_sound in Hrun
    as (cbs & Hout & Hlen & Hwords & Hzero).
  simpl in Hout. subst cbs. cbv zeta. split_and!; [done..|].
  intros fuel' Hfuel'.
  by rewrite (_register_tls_callbacks_while_complete (_pe self) callbacks).
Qed.

Lemma tls_scan_returns_the_words_before_the_first_zero_witness :
  (∀ (i : nat) (c : option Z), [Some 0x40001000; Some 1] !! i = Some c →
     pefile.get_dword_at_rva (_pe lib64.obj) (8 + 4 * Z.of_nat i) = c ∧ c ≠ Some 0) ∧
  pefile.get_dword_at_rva (_pe lib64.obj) (8 + 4 * Z.of_nat 2) = Some 0 ∧
  (2 < 3)%nat ∧
  (∀ fuel' : nat, (2 < fuel')%nat →
     PE._register_tls_callbacks fuel' lib64.obj 0x140000008
       = Ok [Some 0x40001000; Some 1]).
Proof.
  apply (tls_scan_returns_the_words_before_the_first_zero
           3 lib64.obj 0x140000008 [Some 0x40001000; Some 1]).
  vm_compute. reflexivity.
Defined.

(** X9.  When the array starts inside the image or behind it and none of the
    words that the scan can read from there is zero, so when the array runs
    to the end of the image without a zero word, the scan does not return:
    a word that cannot be read is not zero either, and the loop goes on for
    any amount of fuel. *)
Theorem tls_scan_without_a_zero_word_never_returns (self : PE) (addr : Z) :
  0 ≤ addr - linked_base self →
  Forall (λ i : nat,
            pefile.get_dword_at_rva (_pe self)
                                    (addr - linked_base self + 4 * Z.of_nat i)
              ≠ Some 0)
         (seq 0 (length (pefile.memory_mapped_image (_pe self)))) →
  ∀ fuel : nat, PE._register_tls_callbacks fuel self addr = Diverge.
Proof.
  intros Hrva Hwords fuel.
  unfold PE._register_tls_callbacks, AT.to_rva, AT.from_lva. cbn [AT._rva].
  apply _register_tls_callbacks_while_diverges. intros i.
  destruct (decide (i < length (pefile.memory_mapped_image (_pe self)))%nat)
    as [Hi|Hi].
  - rewrite Forall_forall in Hwords. apply Hwords, elem_of_seq. lia.
  - rewrite get_dword_at_rva_beyond by lia. done.
Qed.

Lemma tls_scan_without_a_zero_word_never_returns_witness :
  PE._register_tls_callbacks 50 tls_open.obj 0x400004 = Diverge.
Proof.
  apply (tls_scan_without_a_zero_word_never_returns tls_open.obj 0x400004).
  - vm_compute. discriminate.
  - apply (bool_decide_unpack _). vm_compute. exact I.
Defined.

(** So the construction of that file does not return either. *)
Example tls_open_construction_diverges :
  PE.__init__ 1000 true 7%nat (Some "/opt/win/open.dll") false None tls_open.file
    = Diverge.
Proof. vm_compute. reflexivity. Qed.


(** ** Tables without HIGHADJ entries *)

Lemma recorded_relocs_without_highadj (this : objref)
    (entries : list pefile.reloc_entry) :
  Forall (λ e, pefile.type e ≠ pefile.IMAGE_REL_BASED_HIGHADJ) entries →
  recorded_relocs this entries = map (base_reloc_of this) entries.
Proof.
  induction 1 as [|e entries He _ IH]; [done|].
  rewrite recorded_relocs_other by done. cbn [map]. by rewrite IH.
Qed.

(** X14.  The scan of a block that has no HIGHADJ entry returns, logs
    nothing, and appends one relocation per entry, in the order of the block,
    each with the RVA and the type of its entry, without symbol, provider or
    [next_rva]. *)
Theorem block_without_highadj_gives_one_relocation_per_entry (this : objref)
    (entries : list pefile.reloc_entry) (relocs : list WinReloc)
    (log : list logrec) :
  Forall (λ e, pefile.type e ≠ pefile.IMAGE_REL_BASED_HIGHADJ) entries →
  PE._handle_relocs_block this (pefile.mk_base_reloc entries) relocs log
    = Ok (relocs
          ++ map (λ e, WinReloc.__init__ this None (pefile.rva e) None
                                         (Some (pefile.type e)) None)
                 entries,
          log).
Proof.
  intros Hno. rewrite _handle_relocs_block_spec. cbn [pefile.entries].
  by rewrite recorded_relocs_without_highadj.
Qed.

Lemma block_without_highadj_gives_one_relocation_per_entry_witness :
  PE._handle_relocs_block app.ref
      (pefile.mk_base_reloc
         [pefile.mk_reloc_entry 0x1004 pefile.IMAGE_REL_BASED_HIGHLOW;
          pefile.mk_reloc_entry 0x1008 pefile.IMAGE_REL_BASED_ABSOLUTE])
      [] []
    = Ok ([] ++ map (λ e, WinReloc.__init__ app.ref None (pefile.rva e) None
                                            (Some (pefile.type e)) None)
                    [pefile.mk_reloc_entry 0x1004 pefile.IMAGE_REL_BASED_HIGHLOW;
                     pefile.mk_reloc_entry 0x1008 pefile.IMAGE_REL_BASED_ABSOLUTE],
          []).
Proof.
  apply (block_without_highadj_gives_one_relocation_per_entry app.ref).
  repeat constructor; vm_compute; discriminate.
Defined.


(** ** Applying base relocations *)

Section applying.

Implicit Types (σ : heap) (self : WinReloc) (owner : PE) (m : gmap Z Z)
               (bs : list Z).

(** Encoding what was decoded from a byte string gives the string back. *)
Lemma le_bytes_le_value bs :
  byte_string bs → struct.le_bytes (length bs) (struct.le_value bs) = bs.
Proof.
  unfold byte_string. induction 1 as [|b bs Hb Hbs IH]; [done|].
  cbn [length struct.le_value struct.le_bytes].
  replace (b + 256 * struct.le_value bs) with (b + struct.le_value bs * 256) by lia.
  rewrite Z.mod_add, Z.div_add by lia.
  rewrite Z.mod_small, Z.div_small, Z.add_0_l by lia. by rewrite IH.
Qed.

Lemma length_read_bytes m (a : Z) (n : nat) :
  (length (Clemory.read_bytes m a n) ≤ n)%nat.
Proof.
  revert a; induction n as [|n IH]; intros a; simpl; [lia|].
  destruct (m !! a); simpl; [|lia]. specialize (IH (a + 1)). lia.
Qed.

(** Writing what is there already changes nothing. *)
Lemma write_bytes_read_bytes m (a : Z) (n : nat) :
  length (Clemory.read_bytes m a n) = n →
  Clemory.write_bytes m a (Clemory.read_bytes m a n) = m.
Proof.
  revert a; induction n as [|n IH]; intros a; simpl; [done|].
  destruct (m !! a) as [b|] eqn:Hb; simpl; [|done].
  intros [= Hlen]. rewrite insert_id by done. by apply IH.
Qed.

Lemma set_memory_id owner : set_memory (memory owner) owner = owner.
Proof. by destruct owner. Qed.

(** What a HIGHLOW relocation does to the store, when its site holds four
    bytes. *)
Lemma relocate_highlow_run σ self owner (solist : list PE) (bypass : bool) :
  symbol self = None →
  reloc_type self = Some pefile.IMAGE_REL_BASED_HIGHLOW →
  σ !! owner_obj self = Some owner →
  length (Clemory.read_bytes (memory owner) (addr self) 4) = 4%nat →
  WinReloc.relocate σ self solist bypass
    = Ok (self,
          <[owner_obj self :=
              set_memory
                (Clemory.write_bytes (memory owner) (addr self)
                   (struct.le_bytes 4
                      ((mapped_base owner
                        + (struct.le_value
                             (Clemory.read_bytes (memory owner) (addr self) 4)
                           - linked_base owner)) `mod` 2 ^ 32)))
                owner]> σ,
          []).
Proof.
  intros Hsym Hty Hown Hlen. unfold WinReloc.relocate. rewrite Hsym, Hty.
  rewrite bool_decide_eq_false_2 by (unfold pefile.IMAGE_REL_BASED_ABSOLUTE,
    pefile.IMAGE_REL_BASED_HIGHLOW; congruence).
  rewrite bool_decide_eq_true_2 by done.
  unfold deref. rewrite Hown. cbn [pybind].
  unfold struct.unpack_I, struct.unpack_le.
  rewrite bool_decide_eq_true_2 by done. cbn [pybind].
  unfold AT.to_mva, AT.from_lva. cbn [AT._owner AT._rva].
  by rewrite pack_I_mod.
Qed.

(** What a DIR64 relocation does, when its site holds eight bytes: it
    patches if the rebased value fits 64 bits, and raises otherwise. *)
Lemma relocate_dir64_run σ self owner (solist : list PE) (bypass : bool) :
  symbol self = None →
  reloc_type self = Some pefile.IMAGE_REL_BASED_DIR64 →
  σ !! owner_obj self = Some owner →
  length (Clemory.read_bytes (memory owner) (addr self) 8) = 8%nat →
  let rebased :=
    mapped_base owner
    + (struct.le_value (Clemory.read_bytes (memory owner) (addr self) 8)
       - linked_base owner) in
  WinReloc.relocate σ self solist bypass
    = if bool_decide (0 ≤ rebased < 2 ^ 64)
      then Ok (self,
               <[owner_obj self :=
                   set_memory
                     (Clemory.write_bytes (memory owner) (addr self)
                                          (struct.le_bytes 8 rebased))
                     owner]> σ,
               [])
      else Raise struct_error.
Proof.
  intros Hsym Hty Hown Hlen rebased. unfold WinReloc.relocate. rewrite Hsym, Hty.
  rewrite !bool_decide_eq_false_2 by (unfold pefile.IMAGE_REL_BASED_ABSOLUTE,
    pefile.IMAGE_REL_BASED_HIGHLOW, pefile.IMAGE_REL_BASED_DIR64; congruence).
  rewrite bool_decide_eq_true_2 by done.
  unfold deref. rewrite Hown. cbn [pybind].
  unfold struct.unpack_Q, struct.unpack_le.
  rewrite bool_decide_eq_true_2 by done. cbn [pybind].
  unfold AT.to_mva, AT.from_lva. cbn [AT._owner AT._rva]. fold rebased.
  unfold struct.pack_Q, struct.pack_le. change (8 * Z.of_nat 8) with 64.
  by case_bool_decide.
Qed.

End applying.

Lemma unpack_le_Ok (width : nat) (bs : list Z) (V : Z) :
  struct.unpack_le width bs = Ok V → length bs = width ∧ V = struct.le_value bs.
Proof.
  unfold struct.unpack_le. case_bool_decide; [|done]. by intros [= <-].
Qed.

(** X10.  A DIR64 base relocation (no symbol) whose patch site holds eight
    bytes that decode, little-endian, to the linked address [V], where
    [mapped_base + (V - linked_base)] fits 64 bits: it is applied without
    error or log record, and afterwards the site holds exactly the eight
    bytes of that value, not truncated; the bases of the owner and every byte
    outside the site are as before. *)
Theorem dir64_patches_rebased_qword (σ : heap) (self : WinReloc) (owner : PE)
    (solist : list PE) (bypass_compatibility : bool) (V : Z) :
  symbol self = None →
  reloc_type self = Some pefile.IMAGE_REL_BASED_DIR64 →
  σ !! owner_obj self = Some owner →
  struct.unpack_Q (Clemory.read_bytes (memory owner) (addr self) 8) = Ok V →
  0 ≤ mapped_base owner + (V - linked_base owner) < 2 ^ 64 →
  let patched := mapped_base owner + (V - linked_base owner) in
  ∃ owner' : PE,
    WinReloc.relocate σ self solist bypass_compatibility
      = Ok (self, <[owner_obj self := owner']> σ, []) ∧
    mapped_base owner' = mapped_base owner ∧
    linked_base owner' = linked_base owner ∧
    Clemory.read_bytes (memory owner') (addr self) 8 = struct.le_bytes 8 patched ∧
    struct.unpack_Q (Clemory.read_bytes (memory owner') (addr self) 8) = Ok patched ∧
    (∀ x : Z, ¬ (addr self ≤ x < addr self + 8) → memory owner' !! x = memory owner !! x).
Proof.
  intros Hsym Hty Hown [Hlen ->]%unpack_le_Ok Hfit patched.
  exists (set_memory (Clemory.write_bytes (memory owner) (addr self)
                                          (struct.le_bytes 8 patched)) owner).
  assert (Hread : Clemory.read_bytes
                    (Clemory.write_bytes (memory owner) (addr self)
                                         (struct.le_bytes 8 patched))
                    (addr self) 8 = struct.le_bytes 8 patched).
  { pose proof (read_bytes_write_bytes (memory owner) (addr self)
                                       (struct.le_bytes 8 patched)) as H.
    by rewrite length_le_bytes in H. }
  split_and!.
  - rewrite (relocate_dir64_run σ self owner) by done. cbv zeta.
    by rewrite bool_decide_eq_true_2.
  - done.
  - done.
  - exact Hread.
  - change (memory (set_memory ?m _)) with m. rewrite Hread.
    apply (unpack_pack 8). unfold struct.pack_le.
    by rewrite bool_decide_eq_true_2.
  - intros x Hx. change (memory (set_memory ?m _)) with m.
    destruct (decide (x < addr self)) as [Hlt|Hge].
    + by apply write_bytes_lookup_below.
    + apply write_bytes_lookup_above. rewrite length_le_bytes. lia.
Qed.

Lemma dir64_patches_rebased_qword_witness :
  ∃ owner' : PE,
    WinReloc.relocate {[ reloc64.ref := reloc64.moved_up ]} reloc64.reloc0 [] false
      = Ok (reloc64.reloc0,
            <[reloc64.ref := owner']> {[ reloc64.ref := reloc64.moved_up ]}, []) ∧
    mapped_base owner' = 0x150000000 ∧
    linked_base owner' = 0x140000000 ∧
    Clemory.read_bytes (memory owner') 0 8
      = [0x00; 0x10; 0x00; 0x50; 0x01; 0x00; 0x00; 0x00] ∧
    struct.unpack_Q (Clemory.read_bytes (memory owner') 0 8) = Ok 0x150001000 ∧
    (∀ x : Z, ¬ (0 ≤ x < 0 + 8) →
              memory owner' !! x = memory reloc64.moved_up !! x).
Proof.
  apply (dir64_patches_rebased_qword
           {[ reloc64.ref := reloc64.moved_up ]} reloc64.reloc0 reloc64.moved_up
           [] false 0x140001000);
    try reflexivity.
  vm_compute. split; [discriminate | reflexivity].
Defined.

(** X11.  A DIR64 base relocation whose site holds eight bytes decoding to
    [V], where [mapped_base + (V - linked_base)] is negative or does not fit
    64 bits: applying it raises [struct.error], and nothing is patched.  So
    it is for a null pointer in an object mapped below its link base. *)
Theorem dir64_out_of_range_raises (σ : heap) (self : WinReloc) (owner : PE)
    (solist : list PE) (bypass_compatibility : bool) (V : Z) :
  symbol self = None →
  reloc_type self = Some pefile.IMAGE_REL_BASED_DIR64 →
  σ !! owner_obj self = Some owner →
  struct.unpack_Q (Clemory.read_bytes (memory owner) (addr self) 8) = Ok V →
  ¬ (0 ≤ mapped_base owner + (V - linked_base owner) < 2 ^ 64) →
  WinReloc.relocate σ self solist bypass_compatibility = Raise struct_error.
Proof.
  intros Hsym Hty Hown [Hlen ->]%unpack_le_Ok Hout.
  rewrite (relocate_dir64_run σ self owner) by done. cbv zeta.
  by rewrite bool_decide_eq_false_2.
Qed.

Lemma dir64_out_of_range_raises_witness :
  WinReloc.relocate {[ reloc64.ref := reloc64.moved_down ]} reloc64.reloc8 [] false
    = Raise struct_error.
Proof.
  apply (dir64_out_of_range_raises
           {[ reloc64.ref := reloc64.moved_down ]} reloc64.reloc8
           reloc64.moved_down [] false 0);
    try reflexivity.
  vm_compute. intros [H _]. by apply H.
Defined.

(** X12.  Applied to an object that is mapped at its link base, a HIGHLOW
    or DIR64 base relocation whose site holds a whole word of bytes leaves
    the store exactly as it was, and logs nothing. *)
Theorem relocation_without_displacement_changes_nothing (σ : heap)
    (self : WinReloc) (owner : PE) (solist : list PE)
    (bypass_compatibility : bool) (width : nat) :
  symbol self = None →
  (reloc_type self = Some pefile.IMAGE_REL_BASED_HIGHLOW ∧ width = 4%nat) ∨
  (reloc_type self = Some pefile.IMAGE_REL_BASED_DIR64 ∧ width = 8%nat) →
  σ !! owner_obj self = Some owner →
  mapped_base owner = linked_base owner →
  length (Clemory.read_bytes (memory owner) (addr self) width) = width →
  byte_string (Clemory.read_bytes (memory owner) (addr self) width) →
  WinReloc.relocate σ self solist bypass_compatibility = Ok (self, σ, []).
Proof.
  intros Hsym Hty Hown Hbase Hlen Hbytes.
  pose proof (le_value_bound _ Hbytes) as Hbound.
  pose proof (le_bytes_le_value _ Hbytes) as Hback.
  rewrite Hlen in Hbound, Hback.
  destruct Hty as [[Hty ->]|[Hty ->]].
  - rewrite (relocate_highlow_run σ self owner) by done.
    rewrite Hbase.
    replace (linked_base owner + (struct.le_value _ - linked_base owner))
      with (struct.le_value (Clemory.read_bytes (memory owner) (addr self) 4)) by lia.
    rewrite Z.mod_small by (change (8 * Z.of_nat 4) with 32 in Hbound; lia).
    rewrite Hback, write_bytes_read_bytes, set_memory_id, insert_id by done.
    done.
  - rewrite (relocate_dir64_run σ self owner) by done. cbv zeta.
    rewrite Hbase.
    replace (linked_base owner + (struct.le_value _ - linked_base owner))
      with (struct.le_value (Clemory.read_bytes (memory owner) (addr self) 8)) by lia.
    rewrite bool_decide_eq_true_2
      by (change (8 * Z.of_nat 8) with 64 in Hbound; lia).
    rewrite Hback, write_bytes_read_bytes, set_memory_id, insert_id by done.
    done.
Qed.

Lemma relocation_without_displacement_changes_nothing_witness :
  WinReloc.relocate {[ lib32.ref := lib32.obj ]} lib32.reloc [] false
    = Ok (lib32.reloc, {[ lib32.ref := lib32.obj ]}, []).
Proof.
  apply (relocation_without_displacement_changes_nothing
           {[ lib32.ref := lib32.obj ]} lib32.reloc lib32.obj [] false 4);
    try reflexivity.
  - left. split; reflexivity.
  - apply (bool_decide_unpack _). vm_compute. exact I.
Defined.

Lemma pack_le_Ok (width : nat) (v : Z) (bs : list Z) :
  struct.pack_le width v = Ok bs → length bs = width.
Proof.
  unfold struct.pack_le. case_bool_decide; [|done].
  intros [= <-]. apply length_le_bytes.
Qed.

(** Bytes outside a written window are as before. *)
Lemma write_bytes_lookup_outside (m : gmap Z Z) (a : Z) (data : list Z) (x : Z) :
  ¬ (a ≤ x < a + Z.of_nat (length data)) →
  Clemory.write_bytes m a data !! x = m !! x.
Proof.
  intros Hx. destruct (decide (x < a)).
  - by apply write_bytes_lookup_below.
  - apply write_bytes_lookup_above. lia.
Qed.

(** X13.  Whatever its type, a relocation without symbol that is applied
    without error comes back unchanged; every other object of the store is
    as before; of the owner only the memory image can differ, and only in
    the eight bytes from the relocation's address on; a type other than
    HIGHLOW and DIR64 leaves the whole store as it was; and the log is empty
    or the one warning of an unimplemented type. *)
Theorem base_relocation_touches_only_its_site (σ σ' : heap)
    (self self' : WinReloc) (solist : list PE) (bypass_compatibility : bool)
    (log : list logrec) :
  symbol self = None →
  WinReloc.relocate σ self solist bypass_compatibility = Ok (self', σ', log) →
  self' = self ∧
  (∀ r : objref, r ≠ owner_obj self → σ' !! r = σ !! r) ∧
  (∀ owner : PE,
     σ !! owner_obj self = Some owner →
     ∃ m' : gmap Z Z,
       σ' !! owner_obj self = Some (set_memory m' owner) ∧
       ∀ x : Z, ¬ (addr self ≤ x < addr self + 8) → m' !! x = memory owner !! x) ∧
  (reloc_type self ≠ Some pefile.IMAGE_REL_BASED_HIGHLOW →
   reloc_type self ≠ Some pefile.IMAGE_REL_BASED_DIR64 → σ' = σ) ∧
  (log = [] ∨ log = [warning_unimplemented_relocation_type (reloc_type self)]).
Proof.
  intros Hsym. unfold WinReloc.relocate. rewrite Hsym.
  assert (∀ owner, σ !! owner_obj self = Some owner →
            ∃ m', σ !! owner_obj self = Some (set_memory m' owner) ∧
                  ∀ x, ¬ (addr self ≤ x < addr self + 8) →
                       m' !! x = memory owner !! x) as Hsame.
  { intros owner Hown. exists (memory owner). by rewrite set_memory_id. }
  case_bool_decide as Habs; [intros [= <- <- <-]; by split_and!; auto|].
  case_bool_decide as Hhl.
  - unfold deref. destruct (σ !! owner_obj self) as [owner|] eqn:Hown;
      cbn [pybind]; [|done].
    destruct (struct.unpack_I _) as [V| |]; cbn [pybind]; [|done..].
    destruct (struct.pack_I _) as [bs| |] eqn:Hpack; cbn [pybind]; [|done..].
    apply pack_le_Ok in Hpack.
    intros [= <- <- <-]. split_and!; [done| | |congruence|by left].
    + intros r Hr. by rewrite lookup_insert_ne.
    + intros owner' [= <-]. eexists. rewrite lookup_insert_eq. split; [done|].
      intros x Hx. apply write_bytes_lookup_outside. rewrite Hpack. lia.
  - case_bool_decide as Hdir.
    + unfold deref. destruct (σ !! owner_obj self) as [owner|] eqn:Hown;
        cbn [pybind]; [|done].
      destruct (struct.unpack_Q _) as [V| |]; cbn [pybind]; [|done..].
      destruct (struct.pack_Q _) as [bs| |] eqn:Hpack; cbn [pybind]; [|done..].
      apply pack_le_Ok in Hpack.
      intros [= <- <- <-]. split_and!; [done| | |congruence|by left].
      * intros r Hr. by rewrite lookup_insert_ne.
      * intros owner' [= <-]. eexists. rewrite lookup_insert_eq. split; [done|].
        intros x Hx. apply write_bytes_lookup_outside. rewrite Hpack. lia.
    + intros [= <- <- <-]. split_and!; auto.
Qed.

Lemma base_relocation_touches_only_its_site_witness :
  <[lib32.ref :=
      set_memory (Clemory.write_bytes (memory lib32.displaced) 0
                                      [0x00; 0x10; 0x50; 0x00])
                 lib32.displaced]> lib32.store !! other32.ref
    = lib32.store !! other32.ref.
Proof.
  refine (proj1 (proj2 (base_relocation_touches_only_its_site
                          lib32.store _ lib32.reloc lib32.reloc [] false []
                          eq_refl eq_refl))
                other32.ref _).
  vm_compute. discriminate.
Defined.

(** X17.  Applying a HIGHLOW base relocation is not idempotent: applied
    twice to a site that held the linked address [V], it leaves there
    [(V + 2 * (mapped_base - linked_base)) mod 2^32], the displacement added
    twice. *)
Theorem highlow_applied_twice_displaces_twice (σ : heap) (self : WinReloc)
    (owner : PE) (solist : list PE) (bypass_compatibility : bool) (V : Z) :
  symbol self = None →
  reloc_type self = Some pefile.IMAGE_REL_BASED_HIGHLOW →
  σ !! owner_obj self = Some owner →
  struct.unpack_I (Clemory.read_bytes (memory owner) (addr self) 4) = Ok V →
  ∃ (σ1 σ2 : heap) (owner2 : PE),
    WinReloc.relocate σ self solist bypass_compatibility = Ok (self, σ1, []) ∧
    WinReloc.relocate σ1 self solist bypass_compatibility = Ok (self, σ2, []) ∧
    σ2 !! owner_obj self = Some owner2 ∧
    struct.unpack_I (Clemory.read_bytes (memory owner2) (addr self) 4)
      = Ok ((V + 2 * (mapped_base owner - linked_base owner)) `mod` 2 ^ 32).
Proof.
  intros Hsym Hty Hown [Hlen ->]%unpack_le_Ok.
  set (V := struct.le_value (Clemory.read_bytes (memory owner) (addr self) 4)).
  set (p1 := (mapped_base owner + (V - linked_base owner)) `mod` 2 ^ 32).
  set (owner1 := set_memory (Clemory.write_bytes (memory owner) (addr self)
                                                 (struct.le_bytes 4 p1)) owner).
  assert (Clemory.read_bytes (memory owner1) (addr self) 4 = struct.le_bytes 4 p1)
    as Hread1.
  { pose proof (read_bytes_write_bytes (memory owner) (addr self)
                                       (struct.le_bytes 4 p1)) as H.
    by rewrite length_le_bytes in H. }
  set (p2 := (mapped_base owner + (p1 - linked_base owner)) `mod` 2 ^ 32).
  set (owner2 := set_memory (Clemory.write_bytes (memory owner1) (addr self)
                                                 (struct.le_bytes 4 p2)) owner1).
  exists (<[owner_obj self := owner1]> σ),
         (<[owner_obj self := owner2]> (<[owner_obj self := owner1]> σ)), owner2.
  split_and!.
  - by rewrite (relocate_highlow_run σ self owner).
  - rewrite (relocate_highlow_run _ self owner1);
      [|done|done|by rewrite lookup_insert_eq|by rewrite Hread1, length_le_bytes].
    rewrite Hread1, le_value_le_bytes. change (8 * Z.of_nat 4) with 32.
    rewrite (Z.mod_small p1) by (apply Z.mod_pos_bound; lia). done.
  - by rewrite lookup_insert_eq.
  - pose proof (read_bytes_write_bytes (memory owner1) (addr self)
                                       (struct.le_bytes 4 p2)) as H.
    rewrite length_le_bytes in H.
    change (memory owner2) with (Clemory.write_bytes (memory owner1) (addr self)
                                                     (struct.le_bytes 4 p2)).
    rewrite H. unfold struct.unpack_I, struct.unpack_le.
    rewrite length_le_bytes, bool_decide_eq_true_2 by done.
    rewrite le_value_le_bytes. change (8 * Z.of_nat 4) with 32.
    f_equal. unfold p2, p1. rewrite Z.mod_mod by lia.
    replace (mapped_base owner
             + ((mapped_base owner + (V - linked_base owner)) `mod` 2 ^ 32
                - linked_base owner))
      with ((mapped_base owner + (V - linked_base owner)) `mod` 2 ^ 32
            + (mapped_base owner - linked_base owner)) by lia.
    rewrite Z.add_mod_idemp_l by lia. f_equal. lia.
Qed.

Lemma highlow_applied_twice_displaces_twice_witness :
  ∃ (σ1 σ2 : heap) (owner2 : PE),
    WinReloc.relocate lib32.store lib32.reloc [] false = Ok (lib32.reloc, σ1, []) ∧
    WinReloc.relocate σ1 lib32.reloc [] false = Ok (lib32.reloc, σ2, []) ∧
    σ2 !! lib32.ref = Some owner2 ∧
    struct.unpack_I (Clemory.read_bytes (memory owner2) 0 4) = Ok 0x601000.
Proof.
  apply (highlow_applied_twice_displaces_twice
           lib32.store lib32.reloc lib32.displaced [] false 0x401000);
    reflexivity.
Defined.


(** ** The memory image of a constructed object *)

(** What a backer added to a memory holds. *)
Lemma add_backer_lookup (data : list Z) (start : Z) (m : gmap Z Z) (x : Z) :
  Clemory.add_backer start data m !! x
    = if bool_decide (start ≤ x < start + Z.of_nat (length data))
      then data !! Z.to_nat (x - start)
      else m !! x.
Proof.
  revert start; induction data as [|b data IH]; intros start.
  - simpl. by rewrite bool_decide_eq_false_2 by lia.
  - cbn [Clemory.add_backer length]. destruct (decide (x = start)) as [->|Hne].
    + rewrite lookup_insert_eq, bool_decide_eq_true_2 by lia.
      by replace (start - start) with 0 by lia.
    + rewrite lookup_insert_ne, IH by done.
      case_bool_decide as Hin.
      * rewrite bool_decide_eq_true_2 by lia.
        replace (Z.to_nat (x - start)) with (S (Z.to_nat (x - (start + 1)))) by lia.
        done.
      * by rewrite bool_decide_eq_false_2 by lia.
Qed.

(** Reading a stretch of bytes that a memory holds. *)
Lemma read_bytes_lookup (m : gmap Z Z) (data : list Z) :
  ∀ (a : Z) (k : nat),
    (∀ i : nat, (i < length data)%nat → m !! (a + Z.of_nat i) = data !! i) →
    k = length data →
    Clemory.read_bytes m a k = data.
Proof.
  induction data as [|b data IH]; intros a k Hm ->; [done|].
  cbn [length Clemory.read_bytes].
  pose proof (Hm 0%nat ltac:(simpl; lia)) as H0.
  rewrite Z.add_0_r in H0. rewrite H0. cbn. f_equal.
  apply IH; [|done]. intros i Hi.
  specialize (Hm (S i) ltac:(simpl; lia)).
  by replace (a + 1 + Z.of_nat i) with (a + Z.of_nat (S i)) by lia.
Qed.

(** X18.  The memory image of a constructed object is the mapped image of
    its file, backed at address 0: the byte at an address within the image
    is the byte of the image at that offset, there is no byte at any other
    address, and reading [n] bytes at an address [a] with [a + n] within the
    image returns the [n] bytes of the image from offset [a] on. *)
Theorem memory_is_the_mapped_image (fuel : nat) (pefile_installed : bool)
    (this : objref) (bin : option string) (main : bool)
    (custom_arch : option Arch) (pe : pefile.PE) (self : PE) (log : list logrec) :
  PE.__init__ fuel pefile_installed this bin main custom_arch pe = Ok (self, log) →
  let image := pefile.get_memory_mapped_image pe in
  (∀ i : nat, memory self !! Z.of_nat i = image !! i) ∧
  (∀ x : Z, ¬ (0 ≤ x < Z.of_nat (length image)) → memory self !! x = None) ∧
  (∀ a n : nat, (a + n ≤ length image)%nat →
     Clemory.read_bytes (memory self) (Z.of_nat a) n = take n (drop a image)).
Proof.
  intros Hbuilt image.
  apply __init___built in Hbuilt
    as (a & _ & _ & _ & _ & _ & _ & _ & _ & _ & _ & _ & _ & _ & _ & Hmem).
  fold image in Hmem.
  assert (∀ i : nat, memory self !! Z.of_nat i = image !! i) as Hbyte.
  { intros i. rewrite Hmem, add_backer_lookup, lookup_empty.
    case_bool_decide as Hi.
    - f_equal. lia.
    - symmetry. apply lookup_ge_None. lia. }
  split_and!; [done| |].
  - intros x Hx. rewrite Hmem, add_backer_lookup, lookup_empty.
    by rewrite bool_decide_eq_false_2 by lia.
  - intros a0 n Hfit. apply read_bytes_lookup.
    + intros i Hi. rewrite <- Nat2Z.inj_add, Hbyte.
      rewrite lookup_take_lt, lookup_drop; [done|].
      rewrite length_take, length_drop in Hi. lia.
    + rewrite length_take, length_drop. lia.
Qed.

Lemma memory_is_the_mapped_image_witness :
  (∀ i : nat, memory lib32.obj !! Z.of_nat i = lib32.image !! i) ∧
  (∀ x : Z, ¬ (0 ≤ x < Z.of_nat (length lib32.image)) → memory lib32.obj !! x = None) ∧
  (∀ a n : nat, (a + n ≤ length lib32.image)%nat →
     Clemory.read_bytes (memory lib32.obj) (Z.of_nat a) n
       = take n (drop a lib32.image)).
Proof.
  apply (memory_is_the_mapped_image
           1 true lib32.ref (Some "/opt/win/lib.dll") false None lib32.file
           lib32.obj []).
  vm_compute. reflexivity.
Defined.
